(** * A bounded-depth breadth-first Wikipedia crawler (SpeerAssessment.py)

    Shallow embedding of [is_valid_wiki_url], [extract_wiki_links] and
    [crawl], together with the part of CPython's [urllib.parse] they call
    ([urlparse], [urljoin] and their helpers, transcribed from
    Lib/urllib/parse.py of CPython 3.11).

    Conventions.
    - A Python [str] is a [string]; the characters of the model are the
      code points below 256.
    - A Python [int] is a [Z].
    - [str.find] returns [None] where Python returns [-1].
    - A call that may raise returns a [result]; [Raise] propagates through
      the monadic bind exactly as an uncaught exception does.
    - The collaborators whose code is outside the program are parameters
      of the development, each with the exceptions it can raise: the HTML
      parser (the hrefs of the [a[href]] elements of a document, in
      document order, or the exception with which it rejects the
      document), the network (the outcome of the n-th [requests.get]: a
      page, a [RequestException], or an exception of another class),
      [print] on [sys.stdout], the writing of a file, and the two
      standard-library checks that [urlsplit] delegates to [unicodedata]
      and [ipaddress]. The one [print] on [sys.stderr], in the handler of
      [crawl], is taken to return. *)

From Stdlib Require Import ZArith Ascii String List Lia.
From stdpp Require Import base option list sets gmap strings sorting pretty.

Local Open Scope Z_scope.

(** ** Exceptions *)

(** The exceptions that go through the program. None of them is a
    [requests.RequestException], the one class for which the program has
    a handler: [ValueError] comes from [urllib.parse],
    [ParserRejectedMarkup] from the HTML parser, [LocationParseError]
    from [urllib3] below [requests.get], [OSError] and
    [UnicodeEncodeError] from [open], [write] and [print]. *)
Inductive exn : Type :=
| ValueError (msg : string)
| ParserRejectedMarkup (msg : string)
| LocationParseError (msg : string)
| OSError (msg : string)
| UnicodeEncodeError (msg : string).

Inductive result (A : Type) : Type :=
| Return (a : A)
| Raise (e : exn).
Arguments Return {A} a.
Arguments Raise {A} e.

#[global] Instance result_ret : MRet result := fun A a => Return a.
#[global] Instance result_bind : MBind result := fun A B f m =>
  match m with
  | Return a => f a
  | Raise e => Raise e
  end.

Definition returns {A} (m : result A) : Prop := exists a, m = Return a.

(** ** Python string operations *)

Definition ch_slash : ascii := "/"%char.
Definition ch_colon : ascii := ":"%char.
Definition ch_hash : ascii := "#"%char.
Definition ch_question : ascii := "?"%char.
Definition ch_semi : ascii := ";"%char.
Definition ch_at : ascii := "@"%char.
Definition ch_lbracket : ascii := "["%char.
Definition ch_rbracket : ascii := "]"%char.
Definition ch_dot : ascii := "."%char.

(** [c in s] for a one-character [c]. *)
Fixpoint str_in (c : ascii) (s : string) : bool :=
  match s with
  | EmptyString => false
  | String a r => Ascii.eqb c a || str_in c r
  end.

(** [s.find(c)]: index of the first [c], [None] for Python's [-1]. *)
Fixpoint str_find (c : ascii) (s : string) : option nat :=
  match s with
  | EmptyString => None
  | String a r => if Ascii.eqb c a then Some O else S <$> str_find c r
  end.

(** [s[:n]] and [s[n:]] for [0 <= n]. *)
Fixpoint str_take (n : nat) (s : string) : string :=
  match n, s with
  | S n', String a r => String a (str_take n' r)
  | _, _ => EmptyString
  end.

Fixpoint str_drop (n : nat) (s : string) : string :=
  match n, s with
  | S n', String _ r => str_drop n' r
  | _, _ => s
  end.

(** [s.find(c, start)]. *)
Definition str_find_from (c : ascii) (start : nat) (s : string) : option nat :=
  if (String.length s <? start)%nat then None
  else Nat.add start <$> str_find c (str_drop start s).

(** [s.rfind(c)]. *)
Fixpoint str_rfind (c : ascii) (s : string) : option nat :=
  match s with
  | EmptyString => None
  | String a r =>
      match str_rfind c r with
      | Some i => Some (S i)
      | None => if Ascii.eqb c a then Some O else None
      end
  end.

(** [s.partition(c)]: (before, found, after). *)
Definition str_partition (c : ascii) (s : string) : string * bool * string :=
  match str_find c s with
  | Some i => (str_take i s, true, str_drop (S i) s)
  | None => (s, false, EmptyString)
  end.

(** [s.rpartition(c)]. *)
Definition str_rpartition (c : ascii) (s : string) : string * bool * string :=
  match str_rfind c s with
  | Some i => (str_take i s, true, str_drop (S i) s)
  | None => (EmptyString, false, s)
  end.

(** [s.startswith(p)] and [s.endswith(p)]. *)
Fixpoint startswith (p s : string) : bool :=
  match p, s with
  | EmptyString, _ => true
  | String a p', String b s' => Ascii.eqb a b && startswith p' s'
  | String _ _, EmptyString => false
  end.

Definition endswith (p s : string) : bool :=
  (String.length p <=? String.length s)%nat
  && String.eqb (str_drop (String.length s - String.length p) s) p.

(** [s.replace(c, "")]. *)
Fixpoint str_remove (c : ascii) (s : string) : string :=
  match s with
  | EmptyString => EmptyString
  | String a r => if Ascii.eqb c a then str_remove c r else String a (str_remove c r)
  end.

(** [s.lstrip(chars)], [s.rstrip(chars)] and [s.strip(chars)]. *)
Fixpoint lstrip (chars : ascii -> bool) (s : string) : string :=
  match s with
  | EmptyString => EmptyString
  | String a r => if chars a then lstrip chars r else s
  end.

Fixpoint rstrip (chars : ascii -> bool) (s : string) : string :=
  match s with
  | EmptyString => EmptyString
  | String a r =>
      match rstrip chars r with
      | EmptyString => if chars a then EmptyString else String a EmptyString
      | r' => String a r'
      end
  end.

Definition strip (chars : ascii -> bool) (s : string) : string :=
  rstrip chars (lstrip chars s).

(** [all(p(c) for c in s)]. *)
Fixpoint str_forall (p : ascii -> bool) (s : string) : bool :=
  match s with
  | EmptyString => true
  | String a r => p a && str_forall p r
  end.

Definition in_range (lo hi : nat) (c : ascii) : bool :=
  (lo <=? nat_of_ascii c)%nat && (nat_of_ascii c <=? hi)%nat.

Definition is_upper (c : ascii) : bool := in_range 65 90 c.
Definition is_lower (c : ascii) : bool := in_range 97 122 c.
Definition is_digit (c : ascii) : bool := in_range 48 57 c.
Definition is_hexdigit (c : ascii) : bool :=
  is_digit c || in_range 97 102 c || in_range 65 70 c.

(** [c.isascii()], and [c.isascii() and c.isalpha()]. *)
Definition isascii (c : ascii) : bool := (nat_of_ascii c <? 128)%nat.
Definition isascii_alpha (c : ascii) : bool := is_upper c || is_lower c.

(** [s.lower()], on the ASCII letters (it is only applied to a run of
    [scheme_chars]). *)
Definition lower_char (c : ascii) : ascii :=
  if is_upper c then ascii_of_nat (nat_of_ascii c + 32) else c.

Fixpoint lower (s : string) : string :=
  match s with
  | EmptyString => EmptyString
  | String a r => String (lower_char a) (lower r)
  end.

(** [s.split(c)]: never empty, one more item than there are separators. *)
Fixpoint str_split (c : ascii) (s : string) : list string :=
  match s with
  | EmptyString => [EmptyString]
  | String a r =>
      if Ascii.eqb c a then EmptyString :: str_split c r
      else match str_split c r with
           | x :: xs => String a x :: xs
           | [] => [String a EmptyString]
           end
  end.

(** [sep.join(items)]. *)
Fixpoint str_join (sep : string) (items : list string) : string :=
  match items with
  | [] => EmptyString
  | [x] => x
  | x :: xs => x +:+ sep +:+ str_join sep xs
  end.

(** [x in items] for a tuple or list of strings. *)
Definition str_in_list (x : string) (items : list string) : bool :=
  existsb (String.eqb x) items.

(** Truthiness of a [str]. *)
Definition nonempty (s : string) : bool :=
  match s with
  | EmptyString => false
  | String _ _ => true
  end.

(** [itertools.takewhile] on a string: the longest prefix whose characters
    satisfy [p], and what follows it. *)
Fixpoint str_span (p : ascii -> bool) (s : string) : string * string :=
  match s with
  | EmptyString => (EmptyString, EmptyString)
  | String a r =>
      if p a then let '(x, y) := str_span p r in (String a x, y)
      else (EmptyString, s)
  end.

(** ** urllib.parse: constants and result tuples *)

Definition uses_relative : list string :=
  [""; "ftp"; "http"; "gopher"; "nntp"; "imap"; "wais"; "file"; "https";
   "shttp"; "mms"; "prospero"; "rtsp"; "rtspu"; "sftp"; "svn"; "svn+ssh";
   "ws"; "wss"].

Definition uses_netloc : list string :=
  [""; "ftp"; "http"; "gopher"; "nntp"; "telnet"; "imap"; "wais"; "file";
   "mms"; "https"; "shttp"; "snews"; "prospero"; "rtsp"; "rtspu"; "rsync";
   "svn"; "svn+ssh"; "sftp"; "nfs"; "git"; "git+ssh"; "ws"; "wss"].

Definition uses_params : list string :=
  [""; "ftp"; "hdl"; "prospero"; "http"; "imap"; "https"; "shttp"; "rtsp";
   "rtspu"; "sip"; "sips"; "mms"; "sftp"; "tel"].

(** [c in scheme_chars]. *)
Definition scheme_chars (c : ascii) : bool :=
  is_lower c || is_upper c || is_digit c || str_in c "+-.".

(** [c in _WHATWG_C0_CONTROL_OR_SPACE]: the code points 0 to 0x20. *)
Definition _WHATWG_C0_CONTROL_OR_SPACE (c : ascii) : bool :=
  (nat_of_ascii c <=? 32)%nat.

(** [_UNSAFE_URL_BYTES_TO_REMOVE]: tab, carriage return, line feed. *)
Definition _UNSAFE_URL_BYTES_TO_REMOVE : list ascii :=
  [ascii_of_nat 9; ascii_of_nat 13; ascii_of_nat 10].

Definition SplitResult : Type := string * string * string * string * string.

Module ParseResult.
Record t : Type := mk {
  scheme : string;
  netloc : string;
  path : string;
  params : string;
  query : string;
  fragment : string
}.
End ParseResult.

(** What [ipaddress.ip_address] returns. *)
Inductive ip_version : Type := IPv4Address | IPv6Address.

(** ** The crawler's constants *)

Definition WIKI_BASE : string := "https://en.wikipedia.org".

(** [WIKI_PATH_RE = re.compile(r"^/wiki/[^:#]+$")], through [.match].
    The class [[^:#]] also matches a line feed, so the optional line feed
    that [$] tolerates before the end is already covered by the class: the
    pattern matches exactly the strings made of the prefix [/wiki/] and one
    or more characters other than [:] and [#]. The result is the matched
    text ([None] when there is no match). *)
Definition not_colon_hash (c : ascii) : bool :=
  negb (Ascii.eqb c ch_colon || Ascii.eqb c ch_hash).

Definition WIKI_PATH_RE_match (s : string) : option string :=
  if startswith "/wiki/" s
     && nonempty (str_drop 6 s)
     && str_forall not_colon_hash (str_drop 6 s)
  then Some s else None.

(** ** Values returned by [is_valid_wiki_url]

    The Python expression [a and b and c] returns its first falsy operand,
    or the last one: [False] from the membership and [endswith] tests, and
    otherwise what [WIKI_PATH_RE.match] returns, a match object or
    [None]. *)
Inductive pyvalue : Type :=
| PyFalse
| PyNone
| PyMatch (matched : string).

Definition truthy (v : pyvalue) : bool :=
  match v with
  | PyMatch _ => true
  | PyFalse | PyNone => false
  end.

(** ** The outcome of one [requests.get(url, timeout=10)] followed by
    [raise_for_status()]: the response text, or a [RequestException]
    (connection error, timeout, HTTP error status) with its message, or an
    exception of another class, which the handler of [crawl] does not
    catch (the [LocationParseError] that [urllib3] raises on a host with
    an empty label, for one). *)
Inductive response : Type :=
| RespText (text : string)
| RequestException (exc : string)
| RequestRaises (e : exn).

(** ** State of the loop of [crawl]

    [visited], [queue] and [all_links] are the three variables of the
    source. [stderr] holds the lines printed to [sys.stderr]. The last two
    fields are instrumentation: [requested] lists the frontier entries that
    were passed to [requests.get], in order, and [enqueued] lists every
    entry that was ever put on [queue], in order. *)
Record crawl_state : Type := mk_state {
  visited : gset string;
  queue : list (string * Z);
  all_links : list string;
  stderr : list string;
  requested : list (string * Z);
  enqueued : list (string * Z)
}.

(** How a run of the loop with a bounded number of iterations ends: the
    loop exits, or an exception leaves it, or the iterations are used up.
    [Uncaught a e] carries what the run had reached when [e] was raised. *)
Inductive outcome (A : Type) : Type :=
| Finished (a : A)
| Uncaught (a : A) (e : exn)
| OutOfFuel.
Arguments Finished {A} a.
Arguments Uncaught {A} a e.
Arguments OutOfFuel {A}.

(** ** What [main] receives and what it leaves *)

(** The choices of the option [--out]. *)
Inductive out_format : Type := OutCsv | OutJson.

(** The namespace that [parser.parse_args()] returns: [args.url],
    [args.depth] (an [int], by [type=int]) and [args.out] ([None] when the
    option is absent). *)
Module Args.
Record t : Type := mk {
  url : string;
  depth : Z;
  out : option out_format
}.
End Args.

(** A field of a row passed to [writer.writerow]. *)
Inductive csv_field : Type :=
| CsvInt (i : Z)
| CsvStr (s : string).

(** A value of the dictionary passed to [json.dump]. *)
Inductive json_value : Type :=
| JsonInt (i : Z)
| JsonStr (s : string)
| JsonStrList (items : list string).

(** A file written by [main]: the rows given to the [csv.writer] of
    [write_csv], in order, or the dictionary given to [json.dump] by
    [write_json], with its keys in insertion order. *)
Inductive file_write : Type :=
| CsvRows (fname : string) (rows : list (list csv_field))
| JsonDump (fname : string) (payload : list (string * json_value)).

(** How the process ends. [main] returns after a crawl (exit status 0),
    with the calls of [print] on [stdout], the lines on [stderr] and the
    files written. Or [parser.error] ends the process with the exit status
    2 and a message. Or an exception leaves [main], which has no handler:
    the interpreter prints the traceback and ends with the exit status 1;
    [Exit1] holds what had been printed and written until then. *)
Inductive exit_status : Type :=
| Exit0 (stdout : list string) (stderr : list string) (files : list file_write)
| Exit2 (message : string)
| Exit1 (stdout : list string) (stderr : list string) (files : list file_write)
    (e : exn).

(** The line feed. *)
Definition LF : string := String (ascii_of_nat 10) EmptyString.

(** [str(i)] and the format [{i:>4}] of an [int]: right-aligned in a field
    of 4 characters, padded with spaces. *)
Definition str_of_int (i : Z) : string := pretty i.

Fixpoint spaces (n : nat) : string :=
  match n with
  | O => EmptyString
  | S n' => String " "%char (spaces n')
  end.

Definition rjust4 (s : string) : string :=
  spaces (4 - String.length s) +:+ s.

(** [enumerate(items, start)]. *)
Fixpoint enumerate (start : Z) (items : list string) : list (Z * string) :=
  match items with
  | [] => []
  | x :: rest => (start, x) :: enumerate (start + 1) rest
  end.

(** [write_csv(fname, links)]: the header row, then one row for each link
    with its index counted from 1. *)
Definition write_csv (fname : string) (links : list string) : file_write :=
  CsvRows fname
    ([CsvStr "index"; CsvStr "url"]
     :: ((fun '(i, link) => [CsvInt i; CsvStr link]) <$> enumerate 1 links)).

(** [write_json(fname, payload)]. *)
Definition write_json (fname : string) (payload : list (string * json_value))
    : file_write :=
  JsonDump fname payload.

(** The URL that a data row of the CSV file carries. *)
Definition csv_row_url (row : list csv_field) : option string :=
  match row with
  | [_; CsvStr link] => Some link
  | _ => None
  end.

(** ** A small site for the examples

    The documents of the examples are made of anchors written
    [<a href='target'>]; [anchors] returns their targets in document order,
    which is what the HTML parser returns on such documents, and it
    rejects a document that holds a marked section of an unknown kind,
    [<![foo], as [html.parser] does. The URLs of the examples are ASCII and
    have no bracketed host, so that the two standard-library checks are
    never reached on them. *)

Definition nfkc_of_ascii (s : string) : string := s.

Definition ip_address_rejecting (s : string) : result ip_version :=
  Raise (ValueError "does not appear to be an IPv4 or IPv6 address").

Fixpoint hrefs_of (html : string) : list string :=
  match html with
  | EmptyString => []
  | String _ rest =>
      if startswith "<a href='" html
      then (str_partition "'"%char (str_drop 9 html)).1.1 :: hrefs_of rest
      else hrefs_of rest
  end.

(** [p in s]. *)
Fixpoint str_contains (p s : string) : bool :=
  startswith p s
  || match s with
     | EmptyString => false
     | String _ rest => str_contains p rest
     end.

Definition anchors (html : string) : result (list string) :=
  if str_contains "<![foo" html
  then Raise (ParserRejectedMarkup "The markup you provided was rejected by the parser.")
  else Return (hrefs_of html).

Definition cat_url : string := "https://en.wikipedia.org/wiki/Cat".
Definition dog_url : string := "https://en.wikipedia.org/wiki/Dog".
Definition lion_url : string := "https://en.wikipedia.org/wiki/Lion".
Definition tiger_url : string := "https://en.wikipedia.org/wiki/Tiger".
Definition query_url : string := "https://en.wikipedia.org/wiki/?x".

Definition cat_page : string :=
  "<p><a href='/wiki/Dog'>Dog</a> <a href='#top'>top</a>
      <a href='/wiki/Lion'>Lion</a>
      <a href='https://en.wikipedia.org/wiki/Tiger'>Tiger</a>
      <a href='/wiki/File:Cat.jpg'>picture</a>
      <a href='/wiki/?x'>search</a> <a href='/wiki/Dog'>Dog</a></p>".

Definition lion_page : string :=
  "<a href='/wiki/Cat'>Cat</a> <a href='/wiki/Tiger'>Tiger</a>
   <a href='/wiki/./Tiger'>Tiger</a>".

(** The Cat and Lion pages are served, the Dog page times out, and every
    other request ends in an HTTP error. *)
Definition site (n : nat) (url : string) : response :=
  if String.eqb url cat_url then RespText cat_page
  else if String.eqb url lion_url then RespText lion_page
  else if String.eqb url dog_url then RequestException "Read timed out."
  else RequestException "404 Client Error: Not Found".




(** A standard output that takes every line, and one whose encoding has
    ASCII characters only. *)
Definition stdout_utf8 (n : nat) (line : string) : result unit := Return tt.


(** A directory where files can be written, and one where they cannot. *)
Definition disk (file : file_write) : result unit := Return tt.


Section Crawler.

(** [unicodedata.normalize('NFKC', s)]. *)
Variable normalize_NFKC : string -> string.

(** [ipaddress.ip_address(s)], which raises [ValueError] on a string that is
    neither an IPv4 nor an IPv6 address. *)
Variable ip_address : string -> result ip_version.

(** [[a["href"] for a in BeautifulSoup(html, "html.parser").select("a[href]")]]:
    the link targets of a document, in document order. The constructor
    [BeautifulSoup] raises [ParserRejectedMarkup] on a document that
    [html.parser] rejects. *)
Variable select_a_href : string -> result (list string).

(** [requests.get] then [raise_for_status]: the outcome of the request
    number [n] (counted from 0) of the run, made for [url]. *)
Variable requests_get : nat -> string -> response.

(** [print(line)], the call number [n] (counted from 0) of the run: it
    raises when the stream is closed or cannot encode the line. *)
Variable print_stdout : nat -> string -> result unit.

(** The writing of a file by [write_csv] or [write_json]: [open], the
    writes and the closing; it raises when one of them does. *)
Variable write_file : file_write -> result unit.

(** *** urllib.parse *)

(** [_splitparams(url)]. [urlparse] only calls it on a [url] that holds a
    semicolon; without one and without a slash, the index [-1] that [find]
    returns slices off the last character. *)
Definition _splitparams (url : string) : string * string :=
  if str_in ch_slash url then
    match str_find_from ch_semi (default O (str_rfind ch_slash url)) url with
    | None => (url, EmptyString)
    | Some i => (str_take i url, str_drop (S i) url)
    end
  else
    match str_find ch_semi url with
    | Some i => (str_take i url, str_drop (S i) url)
    | None => (str_take (String.length url - 1) url, url)
    end.

(** [_splitnetloc(url, start)]: the authority runs up to the first of
    [/], [?] and [#]. *)
Definition _splitnetloc (url : string) (start : nat) : string * string :=
  let delim :=
    fold_left
      (fun delim c =>
         match str_find_from c start url with
         | Some wdelim => Nat.min delim wdelim
         | None => delim
         end)
      [ch_slash; ch_question; ch_hash] (String.length url) in
  (str_take (delim - start) (str_drop start url), str_drop delim url).

(** [_checknetloc(netloc)]: an authority that is not ASCII must not
    normalise to text that holds one of the delimiters. *)
Definition _checknetloc (netloc : string) : result unit :=
  if negb (nonempty netloc) || str_forall isascii netloc then Return tt
  else
    let n := str_remove ch_at netloc in
    let n := str_remove ch_colon n in
    let n := str_remove ch_hash n in
    let n := str_remove ch_question n in
    let netloc2 := normalize_NFKC n in
    if String.eqb n netloc2 then Return tt
    else if existsb (fun c => str_in c netloc2)
              [ch_slash; ch_question; ch_hash; ch_at; ch_colon]
    then Raise (ValueError ("netloc '" +:+ netloc +:+
                  "' contains invalid characters under NFKC normalization"))
    else Return tt.

(** [re.match(r"\Av[a-fA-F0-9]+\..+\Z", hostname)]: [v], one or more
    hexadecimal digits, a dot, then one or more characters none of which is
    a line feed, up to the end of the string. *)
Definition ipvfuture_match (hostname : string) : bool :=
  match hostname with
  | String c r =>
      Ascii.eqb c "v"%char
      && (let '(digits, rest) := str_span is_hexdigit r in
          nonempty digits
          && match rest with
             | String d tail =>
                 Ascii.eqb d ch_dot && nonempty tail
                 && negb (str_in (ascii_of_nat 10) tail)
             | EmptyString => false
             end)
  | EmptyString => false
  end.

(** [_check_bracketed_host(hostname)]. *)
Definition _check_bracketed_host (hostname : string) : result unit :=
  if startswith "v" hostname then
    if ipvfuture_match hostname then Return tt
    else Raise (ValueError "IPvFuture address is invalid")
  else
    ip ← ip_address hostname;
    match ip with
    | IPv4Address => Raise (ValueError "An IPv4 address cannot be in brackets")
    | IPv6Address => Return tt
    end.

(** [_check_bracketed_netloc(netloc)]. *)
Definition _check_bracketed_netloc (netloc : string) : result unit :=
  let hostname_and_port := (str_rpartition ch_at netloc).2 in
  let '(before_bracket, have_open_br, bracketed) :=
    str_partition ch_lbracket hostname_and_port in
  if have_open_br then
    if nonempty before_bracket then Raise (ValueError "Invalid IPv6 URL")
    else
      let '(hostname, _, port) := str_partition ch_rbracket bracketed in
      if nonempty port && negb (startswith ":" port)
      then Raise (ValueError "Invalid IPv6 URL")
      else _check_bracketed_host hostname
  else
    let '(hostname, _, port) := str_partition ch_colon hostname_and_port in
    _check_bracketed_host hostname.

(** [urlsplit(url, scheme)], with [allow_fragments] at its default [True]
    (no call of the program passes another value). *)
Definition urlsplit (url scheme : string) : result SplitResult :=
  let url := lstrip _WHATWG_C0_CONTROL_OR_SPACE url in
  let scheme := strip _WHATWG_C0_CONTROL_OR_SPACE scheme in
  let url := fold_left (fun u b => str_remove b u) _UNSAFE_URL_BYTES_TO_REMOVE url in
  let scheme := fold_left (fun u b => str_remove b u) _UNSAFE_URL_BYTES_TO_REMOVE scheme in
  let '(scheme, url) :=
    match str_find ch_colon url, url with
    | Some (S i), String c0 _ =>
        if isascii_alpha c0 && str_forall scheme_chars (str_take (S i) url)
        then (lower (str_take (S i) url), str_drop (S (S i)) url)
        else (scheme, url)
    | _, _ => (scheme, url)
    end in
  '(netloc, url) ←
    (if startswith "//" url then
       let '(netloc, url) := _splitnetloc url 2 in
       if (str_in ch_lbracket netloc && negb (str_in ch_rbracket netloc))
          || (str_in ch_rbracket netloc && negb (str_in ch_lbracket netloc))
       then Raise (ValueError "Invalid IPv6 URL")
       else
         _ ← (if str_in ch_lbracket netloc && str_in ch_rbracket netloc
              then _check_bracketed_netloc netloc else Return tt);
         Return (netloc, url)
     else Return (EmptyString, url));
  let '(url, fragment) :=
    if str_in ch_hash url
    then let '(a, _, b) := str_partition ch_hash url in (a, b)
    else (url, EmptyString) in
  let '(url, query) :=
    if str_in ch_question url
    then let '(a, _, b) := str_partition ch_question url in (a, b)
    else (url, EmptyString) in
  _ ← _checknetloc netloc;
  Return (scheme, netloc, url, query, fragment).

(** [urlparse(url, scheme)]. *)
Definition urlparse (url scheme : string) : result ParseResult.t :=
  '(scheme, netloc, url, query, fragment) ← urlsplit url scheme;
  let '(url, params) :=
    if str_in_list scheme uses_params && str_in ch_semi url
    then _splitparams url
    else (url, EmptyString) in
  Return (ParseResult.mk scheme netloc url params query fragment).

(** [urlunsplit(components)] and [urlunparse(components)]. *)
Definition urlunsplit (components : SplitResult) : string :=
  let '(scheme, netloc, url, query, fragment) := components in
  let url :=
    if nonempty netloc
       || (nonempty scheme && str_in_list scheme uses_netloc
           && negb (startswith "//" url))
    then
      let url := if nonempty url && negb (startswith "/" url)
                 then "/" +:+ url else url in
      "//" +:+ netloc +:+ url
    else url in
  let url := if nonempty scheme then scheme +:+ ":" +:+ url else url in
  let url := if nonempty query then url +:+ "?" +:+ query else url in
  let url := if nonempty fragment then url +:+ "#" +:+ fragment else url in
  url.

Definition urlunparse (components : ParseResult.t) : string :=
  let '(ParseResult.mk scheme netloc url params query fragment) := components in
  let url := if nonempty params then url +:+ ";" +:+ params else url in
  urlunsplit (scheme, netloc, url, query, fragment).

(** [segments[1:-1] = filter(None, segments[1:-1])]: the empty items
    strictly between the first and the last one are dropped. *)
Definition filter_middle (segments : list string) : list string :=
  match segments with
  | [] => []
  | first :: rest =>
      match rev rest with
      | [] => [first]
      | last :: middle_rev =>
          first :: List.filter nonempty (rev middle_rev) ++ [last]
      end
  end.

(** The loop of [urljoin] over [segments] ([resolved_path.pop()] on an
    empty list raises [IndexError], which the loop swallows). *)
Definition resolve_segment (resolved_path : list string) (seg : string) : list string :=
  if String.eqb seg ".." then removelast resolved_path
  else if String.eqb seg "." then resolved_path
  else resolved_path ++ [seg].

(** [urljoin(base, url)], with [allow_fragments] at its default. *)
Definition urljoin (base url : string) : result string :=
  if negb (nonempty base) then Return url
  else if negb (nonempty url) then Return base
  else
    '(ParseResult.mk bscheme bnetloc bpath bparams bquery bfragment) ←
      urlparse base EmptyString;
    '(ParseResult.mk scheme netloc path params query fragment) ←
      urlparse url bscheme;
    if negb (String.eqb scheme bscheme) || negb (str_in_list scheme uses_relative)
    then Return url
    else if str_in_list scheme uses_netloc && nonempty netloc
    then Return (urlunparse (ParseResult.mk scheme netloc path params query fragment))
    else
      let netloc := if str_in_list scheme uses_netloc then bnetloc else netloc in
      if negb (nonempty path) && negb (nonempty params) then
        let path := bpath in
        let params := bparams in
        let query := if negb (nonempty query) then bquery else query in
        Return (urlunparse (ParseResult.mk scheme netloc path params query fragment))
      else
        let base_parts := str_split ch_slash bpath in
        let base_parts :=
          if nonempty (List.last base_parts EmptyString)
          then removelast base_parts else base_parts in
        let segments :=
          if startswith "/" path then str_split ch_slash path
          else filter_middle (base_parts ++ str_split ch_slash path) in
        let resolved_path := fold_left resolve_segment segments [] in
        let resolved_path :=
          if str_in_list (List.last segments EmptyString) ["."; ".."]
          then resolved_path ++ [EmptyString] else resolved_path in
        let joined := str_join "/" resolved_path in
        Return (urlunparse (ParseResult.mk scheme netloc
                  (if nonempty joined then joined else "/")
                  params query fragment)).

(** *** SpeerAssessment.py *)

(** [is_valid_wiki_url(url)]. It has no [try]: what [urlparse] raises
    goes to the caller. *)
Definition is_valid_wiki_url (url : string) : result pyvalue :=
  parsed ← urlparse url EmptyString;
  if negb (str_in_list (ParseResult.scheme parsed) ["http"; "https"]) then Return PyFalse
  else if negb (endswith "wikipedia.org" (ParseResult.netloc parsed)) then Return PyFalse
  else
    match WIKI_PATH_RE_match (ParseResult.path parsed) with
    | Some m => Return (PyMatch m)
    | None => Return PyNone
    end.

(** The [for a in soup.select("a[href]")] loop, over the hrefs still to be
    scanned. *)
Fixpoint extract_loop (hrefs : list string) (links : list string)
    (seen : gset string) : result (list string) :=
  match hrefs with
  | [] => Return links
  | href :: rest =>
      '(links, seen) ←
        (if bool_decide (is_Some (WIKI_PATH_RE_match href))
            && bool_decide (href ∉ seen)
         then
           link ← urljoin WIKI_BASE href;
           Return (links ++ [link], seen ∪ {[href]})
         else Return (links, seen));
      if (length links =? 10)%nat then Return links
      else extract_loop rest links seen
  end.

(** [extract_wiki_links(html)]. It has no [try]: what the parser raises
    goes to the caller. *)
Definition extract_wiki_links (html : string) : result (list string) :=
  hrefs ← select_a_href html;
  extract_loop hrefs [] ∅.

(** The body of [for link in extract_wiki_links(resp.text)]. *)
Definition visit (lvl : Z) (st : crawl_state) (link : string) : crawl_state :=
  if bool_decide (link ∉ visited st) then
    {| visited := visited st ∪ {[link]};
       queue := queue st ++ [(link, lvl + 1)];
       all_links := all_links st ++ [link];
       stderr := stderr st;
       requested := requested st;
       enqueued := enqueued st ++ [(link, lvl + 1)] |}
  else st.

(** The line [f"[WARN] Could not fetch {url}: {exc}"]. *)
Definition warn_line (url exc : string) : string :=
  "[WARN] Could not fetch " +:+ url +:+ ": " +:+ exc.

(** The state once [requests.get(url, timeout=10)] has been called for the
    entry [(url, lvl)]. *)
Definition requesting (url : string) (lvl : Z) (st : crawl_state) : crawl_state :=
  {| visited := visited st; queue := queue st; all_links := all_links st;
     stderr := stderr st;
     requested := requested st ++ [(url, lvl)];
     enqueued := enqueued st |}.

(** One iteration of [while queue], after [queue.popleft()] returned
    [(url, lvl)] and left [st]. The [try] covers the request only: an
    exception of the request that is not a [RequestException], and what
    [extract_wiki_links] raises, leave the loop. *)
Definition crawl_body (depth : Z) (url : string) (lvl : Z) (st : crawl_state)
    : result crawl_state :=
  if lvl =? depth then Return st
  else
    let st' := requesting url lvl st in
    match requests_get (length (requested st)) url with
    | RequestException exc =>
        Return {| visited := visited st'; queue := queue st';
                  all_links := all_links st';
                  stderr := stderr st' ++ [warn_line url exc];
                  requested := requested st'; enqueued := enqueued st' |}
    | RequestRaises e => Raise e
    | RespText text =>
        links ← extract_wiki_links text;
        Return (fold_left (visit lvl) links st')
    end.

(** The state after [queue.popleft()], [rest] being what is left of the
    queue. *)
Definition popleft (st : crawl_state) (rest : list (string * Z)) : crawl_state :=
  {| visited := visited st; queue := rest; all_links := all_links st;
     stderr := stderr st; requested := requested st; enqueued := enqueued st |}.

(** The [while queue] loop, cut after [fuel] iterations. An exception can
    only leave an iteration after the request was made. *)
Fixpoint crawl_loop (fuel : nat) (depth : Z) (st : crawl_state)
    : outcome crawl_state :=
  match queue st with
  | [] => Finished st
  | (url, lvl) :: rest =>
      match fuel with
      | O => OutOfFuel
      | S fuel' =>
          match crawl_body depth url lvl (popleft st rest) with
          | Return st' => crawl_loop fuel' depth st'
          | Raise e => Uncaught (requesting url lvl (popleft st rest)) e
          end
      end
  end.

(** The state before the loop: the three assignments that open [crawl]. *)
Definition crawl_init (seed_url : string) : crawl_state :=
  {| visited := {[seed_url]};
     queue := [(seed_url, 0)];
     all_links := [seed_url];
     stderr := [];
     requested := [];
     enqueued := [(seed_url, 0)] |}.

(** The run of [crawl(seed_url, depth)], with its instrumentation. *)
Definition crawl_run (fuel : nat) (seed_url : string) (depth : Z)
    : outcome crawl_state :=
  crawl_loop fuel depth (crawl_init seed_url).

(** [crawl(seed_url, depth)]: the value of [all_links] when the loop
    exits, which [crawl] returns; when an exception leaves the loop,
    [crawl] returns nothing, and [Uncaught] holds what [all_links] had
    come to. *)
Definition crawl (fuel : nat) (seed_url : string) (depth : Z)
    : outcome (list string) :=
  match crawl_run fuel seed_url depth with
  | Finished st => Finished (all_links st)
  | Uncaught st e => Uncaught (all_links st) e
  | OutOfFuel => OutOfFuel
  end.

(** ** Notions used in the statements *)

(** Every character of [a] occurs in [b]. *)
Definition str_incl (a b : string) : Prop :=
  forall c, str_in c a = true -> str_in c b = true.

(** The distinct items of a list in the order of their first occurrence,
    leaving out those already in [seen]. *)
Fixpoint first_seen (seen : gset string) (items : list string) : list string :=
  match items with
  | [] => []
  | x :: rest =>
      if bool_decide (x ∈ seen) then first_seen seen rest
      else x :: first_seen (seen ∪ {[x]}) rest
  end.

(** [href] matches [WIKI_PATH_RE]. *)
Definition is_wiki_path (href : string) : Prop :=
  is_Some (WIKI_PATH_RE_match href).

#[global] Instance is_wiki_path_dec (href : string) : Decision (is_wiki_path href).
Proof. unfold is_wiki_path. apply _. Defined.

(** The targets the Link Extractor keeps, in the words of its contract in
    the specification, to be compared with the loop of
    [extract_wiki_links]: those that match the article-path pattern, each
    at its first occurrence in document order, the scan stopping once 10
    have been kept. *)
Definition spec_kept_hrefs (hrefs : list string) : list string :=
  take 10 (first_seen ∅ (filter is_wiki_path hrefs)).

(** [href] resolves to [link] against the site's base. *)
Definition joined (href link : string) : Prop :=
  urljoin WIKI_BASE href = Return link.

(** ** The states of a run, and what holds of them *)

(** The states the loop of [crawl] goes through: the initial one, and the
    one each iteration leaves. *)
Inductive crawl_reach (seed_url : string) (depth : Z) : crawl_state -> Prop :=
| reach_init : crawl_reach seed_url depth (crawl_init seed_url)
| reach_iter st url lvl rest st' :
    crawl_reach seed_url depth st ->
    queue st = (url, lvl) :: rest ->
    crawl_body depth url lvl (popleft st rest) = Return st' ->
    crawl_reach seed_url depth st'.

(** The frontier entries made of [links], one level below [lvl]. *)
Definition at_next_level (lvl : Z) (links : list string) : list (string * Z) :=
  (fun link => (link, lvl + 1)) <$> links.

(** Levels that never decrease along a list. *)
Definition nondecreasing (l : list Z) : Prop :=
  forall i j a b, (i <= j)%nat -> l !! i = Some a -> l !! j = Some b -> a <= b.

(** [link] was found, one level below its parent, in the page of a
    frontier entry that was fetched with success. *)
Definition discovered_from (depth : Z) (st : crawl_state) (link : string)
    (lvl : Z) : Prop :=
  exists n parent plvl text links,
    requested st !! n = Some (parent, plvl)
    /\ requests_get n parent = RespText text
    /\ extract_wiki_links text = Return links
    /\ link ∈ links
    /\ lvl = plvl + 1
    /\ plvl <> depth.

(** The invariant of the loop of [crawl]. *)
Record crawl_inv (seed_url : string) (depth : Z) (st : crawl_state) : Prop := {
  inv_links : all_links st = (enqueued st).*1;
  inv_visited : forall u, u ∈ visited st <-> u ∈ all_links st;
  inv_nodup : NoDup (all_links st);
  inv_suffix : exists done, enqueued st = done ++ queue st;
  inv_sorted : nondecreasing ((enqueued st).*2);
  inv_bound : forall url lvl rest, queue st = (url, lvl) :: rest ->
              forall e, e ∈ enqueued st -> e.2 <= lvl + 1;
  inv_requested : forall e, e ∈ requested st -> e.2 <> depth /\ e ∈ enqueued st;
  inv_seed : enqueued st !! O = Some (seed_url, 0);
  inv_origin : forall i u l, enqueued st !! i = Some (u, l) ->
               (i = O /\ u = seed_url /\ l = 0)
               \/ ((0 < i)%nat /\ discovered_from depth st u l);
  inv_levels : 0 <= depth -> forall e, e ∈ enqueued st -> 0 <= e.2 <= depth
}.


(** A bound on the number of frontier entries below an entry that is [k]
    levels above the depth limit: itself and at most 10 children. *)
Fixpoint frontier_bound (k : nat) : nat :=
  match k with
  | O => 1
  | S k' => 1 + 10 * frontier_bound k'
  end.

(** The measure of the frontier that every iteration decreases. *)
Definition queue_measure (depth : Z) (q : list (string * Z)) : nat :=
  sum_list_with (fun e => frontier_bound (Z.to_nat (depth - e.2))) q.

(** ** Notions used in the further properties of [crawl] *)

(** The entries that were taken off the frontier so far. *)
Definition dequeued (st : crawl_state) : list (string * Z) :=
  take (length (enqueued st) - length (queue st)) (enqueued st).

(** The warning, if any, that the request number [n], made for the entry
    [e], gives rise to. *)
Definition warning_of (n : nat) (e : string * Z) : option string :=
  match requests_get n e.1 with
  | RequestException exc => Some (warn_line e.1 exc)
  | RespText _ | RequestRaises _ => None
  end.

(** The warnings of a list of requests: one for each request that failed,
    in the order of the requests. *)
Definition warnings_of (reqs : list (string * Z)) : list string :=
  omap id (imap warning_of reqs).

(** The weight of a frontier entry in the count of the requests still to
    come: an entry at the depth limit is not requested. *)
Definition request_weight (depth : Z) (e : string * Z) : nat :=
  if e.2 <? depth then frontier_bound (Z.to_nat (depth - 1 - e.2)) else O.

(** ** Plain article titles *)

(** A character that a title can hold without changing how the target
    [/wiki/<title>] is split and joined: not one of [: # ? ; /], and not one
    of the characters that [urlsplit] removes. *)
Definition title_char (c : ascii) : bool :=
  negb (str_in c ":#?;/")
  && negb (existsb (Ascii.eqb c) _UNSAFE_URL_BYTES_TO_REMOVE).

(** A title made of such characters, not empty, and not a dot segment. *)
Definition plain_title (title : string) : Prop :=
  nonempty title = true
  /\ str_forall title_char title = true
  /\ title <> "."
  /\ title <> "..".

(** *** [main], from the parsed arguments on *)

(** The argument of the second [print] of [main]. *)
Definition summary (depth : Z) (total unique : nat) : string :=
  LF +:+ "Crawl complete (depth " +:+ str_of_int depth +:+ ")"
  +:+ LF +:+ "Total links found : " +:+ rjust4 (str_of_int (Z.of_nat total))
  +:+ LF +:+ "Unique links      : " +:+ rjust4 (str_of_int (Z.of_nat unique)).

(** The dictionary that [main] passes to [write_json]. *)
Definition json_payload (args : Args.t) (all_links : list string)
    (unique_count : nat) : list (string * json_value) :=
  [("seed", JsonStr (Args.url args));
   ("depth", JsonInt (Args.depth args));
   ("total_links_found", JsonInt (Z.of_nat (length all_links)));
   ("unique_links", JsonInt (Z.of_nat unique_count));
   ("links", JsonStrList all_links)].

(** The file that the option [--out] asks for, and the message that
    follows its writing. The arrow of the message (U+2192) is held as the
    bytes of its UTF-8 encoding. *)
Definition out_file (args : Args.t) (fmt : out_format) (all_links : list string)
    (unique_count : nat) : file_write :=
  match fmt with
  | OutCsv => write_csv "results.csv" all_links
  | OutJson => write_json "results.json" (json_payload args all_links unique_count)
  end.

Definition out_message (fmt : out_format) : string :=
  match fmt with
  | OutCsv => "→ results.csv written"
  | OutJson => "→ results.json written"
  end.

(** [main()] after [parser.parse_args()]. It has no [try]: an exception of
    [is_valid_wiki_url], of [crawl], of [print] or of the writing of the
    file ends the process. *)
Definition main (fuel : nat) (args : Args.t) : outcome exit_status :=
  match is_valid_wiki_url (Args.url args) with
  | Raise e => Finished (Exit1 [] [] [] e)
  | Return valid =>
      if negb (truthy valid)
      then Finished (Exit2 "URL must be a valid wikipedia.org/wiki/... link")
      else if negb ((1 <=? Args.depth args) && (Args.depth args <=? 3))
      then Finished (Exit2 "Depth must be an integer between 1 and 3")
      else
        let start := "Starting crawl from: " +:+ Args.url args in
        match print_stdout 0 start with
        | Raise e => Finished (Exit1 [] [] [] e)
        | Return _ =>
            match crawl_run fuel (Args.url args) (Args.depth args) with
            | OutOfFuel => OutOfFuel
            | Uncaught st e => Finished (Exit1 [start] (stderr st) [] e)
            | Finished st =>
                let all_links := all_links st in
                let unique_count := size (list_to_set all_links : gset string) in
                let printed :=
                  [start;
                   summary (Args.depth args) (length all_links) unique_count] in
                match print_stdout 1
                        (summary (Args.depth args) (length all_links) unique_count)
                with
                | Raise e => Finished (Exit1 [start] (stderr st) [] e)
                | Return _ =>
                    match Args.out args with
                    | None => Finished (Exit0 printed (stderr st) [])
                    | Some fmt =>
                        let file := out_file args fmt all_links unique_count in
                        match write_file file with
                        | Raise e => Finished (Exit1 printed (stderr st) [] e)
                        | Return _ =>
                            match print_stdout 2 (out_message fmt) with
                            | Raise e =>
                                Finished (Exit1 printed (stderr st) [file] e)
                            | Return _ =>
                                Finished (Exit0 (printed ++ [out_message fmt])
                                            (stderr st) [file])
                            end
                        end
                    end
                end
            end
        end
  end.

(** * Properties *)

(** ** Strings *)

Lemma startswith_spec (p s : string) :
  startswith p s = true <-> exists r, s = p +:+ r.
Proof.
  revert s. induction p as [|a p IH]; intros s; simpl.
  - split; [intros _; by exists s | done].
  - destruct s as [|b s].
    + split; [done | intros [r Hr]; discriminate].
    + rewrite andb_true_iff, Ascii.eqb_eq, IH. split.
      * intros [-> [r ->]]. by exists r.
      * intros [r Hr]. injection Hr as -> ->. eauto.
Qed.

Lemma str_in_find (c : ascii) (s : string) :
  str_in c s = false <-> str_find c s = None.
Proof.
  induction s as [|a s IH]; simpl; [done|].
  destruct (Ascii.eqb c a); simpl; [done|].
  rewrite IH. destruct (str_find c s); simpl; split; congruence.
Qed.

Lemma str_in_take (c : ascii) (n : nat) (s : string) :
  str_in c (str_take n s) = true -> str_in c s = true.
Proof.
  revert s. induction n as [|n IH]; intros [|a s]; simpl; try done.
  rewrite !orb_true_iff. intros [?|?]; [by left | right; by apply IH].
Qed.

Lemma str_in_drop (c : ascii) (n : nat) (s : string) :
  str_in c (str_drop n s) = true -> str_in c s = true.
Proof.
  revert s. induction n as [|n IH]; intros [|a s]; simpl; try done.
  intros H. rewrite (IH _ H). apply orb_true_r.
Qed.

Lemma str_in_remove (c b : ascii) (s : string) :
  str_in c (str_remove b s) = true -> str_in c s = true.
Proof.
  induction s as [|a s IH]; simpl; [done|].
  destruct (Ascii.eqb b a); simpl.
  - intros H. rewrite (IH H). apply orb_true_r.
  - rewrite !orb_true_iff. intros [?|?]; [by left | right; by apply IH].
Qed.

Lemma str_in_lstrip (c : ascii) (chars : ascii -> bool) (s : string) :
  str_in c (lstrip chars s) = true -> str_in c s = true.
Proof.
  induction s as [|a s IH]; simpl; [done|].
  destruct (chars a); simpl; [|done].
  intros H. rewrite (IH H). apply orb_true_r.
Qed.

(** The text before the first [c] holds no [c]. *)
Lemma str_in_take_find (c : ascii) (s : string) (i : nat) :
  str_find c s = Some i -> str_in c (str_take i s) = false.
Proof.
  revert i. induction s as [|a s IH]; intros i; simpl; [done|].
  destruct (Ascii.eqb c a) eqn:E.
  - by intros [= <-].
  - destruct (str_find c s) as [j|]; simpl; [|done].
    intros [= <-]. simpl. rewrite E. by apply IH.
Qed.

(** A character of the pattern's class is neither [:] nor [#]. *)
Lemma str_forall_not_colon_hash (s : string) :
  str_forall not_colon_hash s = true ->
  str_in ch_colon s = false /\ str_in ch_hash s = false.
Proof.
  induction s as [|a s IH]; cbn [str_forall str_in]; [done|].
  rewrite andb_true_iff. intros [Ha Hs]. destruct (IH Hs) as [-> ->].
  unfold not_colon_hash in Ha. rewrite negb_true_iff, orb_false_iff in Ha.
  destruct Ha as [Ha1 Ha2].
  rewrite !orb_false_r. split; by rewrite Ascii.eqb_sym.
Qed.

(** [url.split(c, 1)] when [c in url], as [urlsplit] uses it. *)
Lemma split_first_fst (c : ascii) (u : string) :
  str_in c (if str_in c u
            then let '(a, _, b) := str_partition c u in (a, b)
            else (u, EmptyString)).1 = false.
Proof.
  destruct (str_in c u) eqn:E; [|done].
  unfold str_partition. destruct (str_find c u) as [i|] eqn:F; simpl.
  - by apply str_in_take_find.
  - apply str_in_find in F. congruence.
Qed.

Lemma split_first_sub (c d : ascii) (u : string) :
  str_in d (if str_in c u
            then let '(a, _, b) := str_partition c u in (a, b)
            else (u, EmptyString)).1 = true -> str_in d u = true.
Proof.
  destruct (str_in c u) eqn:E; [|done].
  unfold str_partition. destruct (str_find c u) as [i|] eqn:F; simpl; [|done].
  apply str_in_take.
Qed.

Lemma urlsplit_path_no_hash (url scheme : string) sch nl p q f :
  urlsplit url scheme = Return (sch, nl, p, q, f) -> str_in ch_hash p = false.
Proof.
  unfold urlsplit.
  set (u1 := fold_left _ _ (lstrip _ url)).
  set (s1 := fold_left _ _ (strip _ scheme)).
  destruct (match str_find ch_colon u1, u1 with
            | Some (S i), String c0 _ => _ | _, _ => _ end) as [s2 u2].
  destruct (if startswith "//" u2 then _ else _) as [[nl' u3]|e]; [|done].
  cbn [mbind result_bind].
  pose proof (split_first_fst ch_hash u3) as H1.
  destruct (if str_in ch_hash u3 then _ else _) as [u4 fr].
  pose proof (split_first_sub ch_question ch_hash u4) as H2.
  destruct (if str_in ch_question u4 then _ else _) as [u5 qu].
  destruct (_checknetloc nl'); [|done].
  intros [= <- <- <- <- <-]. simpl in *.
  destruct (str_in ch_hash u5); [|done]. by rewrite H2 in H1.
Qed.

Lemma splitparams_sub (d : ascii) (u : string) :
  str_in d (_splitparams u).1 = true -> str_in d u = true.
Proof.
  unfold _splitparams.
  destruct (str_in ch_slash u).
  - destruct (str_find_from _ _ u); simpl; [apply str_in_take | done].
  - destruct (str_find ch_semi u); simpl; apply str_in_take.
Qed.

Lemma urlparse_path_no_hash (url scheme : string) (parsed : ParseResult.t) :
  urlparse url scheme = Return parsed ->
  str_in ch_hash (ParseResult.path parsed) = false.
Proof.
  unfold urlparse.
  destruct (urlsplit url scheme) as [[[[[sch nl] p] q] f]|e] eqn:E; [|done].
  apply urlsplit_path_no_hash in E. cbn [mbind result_bind].
  pose proof (splitparams_sub ch_hash p) as H.
  destruct (str_in_list sch uses_params && str_in ch_semi p).
  - destruct (_splitparams p) as [p' pa]. intros [= <-]. simpl in *.
    destruct (str_in ch_hash p'); [|done]. by rewrite H in E.
  - by intros [= <-].
Qed.

Lemma str_forall_spec (p : ascii -> bool) (s : string) :
  str_forall p s = true <-> forall c, str_in c s = true -> p c = true.
Proof.
  induction s as [|a s IH]; simpl; [done|].
  rewrite andb_true_iff, IH. split.
  - intros [Ha Hs] c. rewrite orb_true_iff, Ascii.eqb_eq.
    intros [->|?]; [done | by apply Hs].
  - intros H. split.
    + apply H. by rewrite Ascii.eqb_refl.
    + intros c Hc. apply H. rewrite Hc. apply orb_true_r.
Qed.

Lemma str_forall_incl (p : ascii -> bool) (a b : string) :
  str_incl a b -> str_forall p b = true -> str_forall p a = true.
Proof. rewrite !str_forall_spec. unfold str_incl. auto. Qed.

Lemma str_incl_unsafe_removed (s : string) :
  str_incl (fold_left (fun u b => str_remove b u) _UNSAFE_URL_BYTES_TO_REMOVE s) s.
Proof.
  intros c. unfold _UNSAFE_URL_BYTES_TO_REMOVE. cbn [fold_left].
  intros H. by do 3 apply str_in_remove in H.
Qed.

Lemma str_incl_splitnetloc (u : string) (start : nat) :
  str_incl (_splitnetloc u start).1 u.
Proof.
  intros c. unfold _splitnetloc. cbn [fst].
  intros H. by apply str_in_take, str_in_drop in H.
Qed.

(** [urlsplit] raises only on a bracket in the authority or on an
    authority that is not ASCII. *)
Lemma urlsplit_returns (url scheme : string) :
  str_in ch_lbracket url = false ->
  str_in ch_rbracket url = false ->
  str_forall isascii url = true ->
  returns (urlsplit url scheme).
Proof.
  intros Hl Hr Ha. unfold urlsplit.
  set (u1 := fold_left _ _ (lstrip _ url)).
  set (s1 := fold_left _ _ (strip _ scheme)).
  assert (str_incl u1 url) as H1.
  { intros c H. apply str_incl_unsafe_removed in H. by apply str_in_lstrip in H. }
  set (su := match str_find ch_colon u1, u1 with
             | Some (S i), String c0 _ => _ | _, _ => _ end).
  assert (str_incl su.2 url) as H2.
  { subst su. destruct (str_find ch_colon u1) as [[|i]|]; try done.
    destruct u1 as [|c0 r] eqn:Eu; [done|].
    destruct (_ && _); [|done].
    intros c H. cbn [snd] in H. apply str_in_drop in H. by apply H1. }
  destruct su as [s2 u2]. cbn [snd] in H2.
  assert (str_incl (_splitnetloc u2 2).1 url) as H3.
  { intros c H. by apply str_incl_splitnetloc, H2 in H. }
  destruct (startswith "//" u2).
  - destruct (_splitnetloc u2 2) as [nl u3]. cbn [fst] in H3.
    assert (str_in ch_lbracket nl = false) as ->.
    { destruct (str_in ch_lbracket nl) eqn:E; [|done]. apply H3 in E. congruence. }
    assert (str_in ch_rbracket nl = false) as ->.
    { destruct (str_in ch_rbracket nl) eqn:E; [|done]. apply H3 in E. congruence. }
    cbn [andb orb negb mbind result_bind].
    destruct (if str_in ch_hash u3 then _ else _) as [u4 fr].
    destruct (if str_in ch_question u4 then _ else _) as [u5 qu].
    unfold _checknetloc. rewrite (str_forall_incl _ _ _ H3 Ha), orb_true_r.
    cbn [mbind result_bind]. by eexists.
  - cbn [mbind result_bind].
    destruct (if str_in ch_hash u2 then _ else _) as [u4 fr].
    destruct (if str_in ch_question u4 then _ else _) as [u5 qu].
    cbn. by eexists.
Qed.

Lemma urlparse_returns (url scheme : string) :
  str_in ch_lbracket url = false ->
  str_in ch_rbracket url = false ->
  str_forall isascii url = true ->
  returns (urlparse url scheme).
Proof.
  intros Hl Hr Ha. unfold urlparse.
  destruct (urlsplit_returns url scheme Hl Hr Ha) as [[[[[sch nl] p] q] f] ->].
  cbn [mbind result_bind].
  destruct (if _ && _ then _ else _) as [p' pa]. by eexists.
Qed.

Lemma unsafe_removed_wiki (r : string) :
  fold_left (fun u b => str_remove b u) _UNSAFE_URL_BYTES_TO_REMOVE
    (lstrip _WHATWG_C0_CONTROL_OR_SPACE ("/wiki/" +:+ r))
  = "/wiki/" +:+
    fold_left (fun u b => str_remove b u) _UNSAFE_URL_BYTES_TO_REMOVE r.
Proof. reflexivity. Qed.

Lemma split_first_slash (c : ascii) (u : string) :
  Ascii.eqb c ch_slash = false ->
  startswith "/" u = true ->
  startswith "/" (if str_in c u
                  then let '(a, _, b) := str_partition c u in (a, b)
                  else (u, EmptyString)).1 = true.
Proof.
  intros Hc [r ->]%startswith_spec.
  destruct (str_in c ("/" +:+ r)); [|done].
  unfold str_partition.
  change (str_find c ("/" +:+ r))
    with (if Ascii.eqb c ch_slash then Some O else S <$> str_find c r).
  rewrite Hc. by destruct (str_find c r).
Qed.

Lemma splitparams_slash (u : string) :
  startswith "/" u = true -> startswith "/" (_splitparams u).1 = true.
Proof.
  intros [r ->]%startswith_spec. unfold _splitparams.
  change (str_in ch_slash ("/" +:+ r)) with true. cbv iota.
  unfold str_find_from.
  destruct (default O (str_rfind ch_slash ("/" +:+ r))) as [|start].
  - change (str_find ch_semi (str_drop 0 ("/" +:+ r)))
      with (S <$> str_find ch_semi r).
    cbn [Nat.ltb Nat.leb]. by destruct (str_find ch_semi r).
  - destruct (_ <? _)%nat; [done|].
    by destruct (str_find ch_semi _).
Qed.

(** A target that begins with [/wiki/] is split as a path on its site: no
    scheme of its own, no authority, a path that begins with a slash, and
    [urlsplit] cannot raise. *)
Lemma urlsplit_wiki_path (href scheme : string) :
  startswith "/wiki/" href = true ->
  exists p q f,
    urlsplit href scheme =
      Return (fold_left (fun u b => str_remove b u) _UNSAFE_URL_BYTES_TO_REMOVE
                (strip _WHATWG_C0_CONTROL_OR_SPACE scheme),
              EmptyString, p, q, f)
    /\ startswith "/" p = true.
Proof.
  intros [r ->]%startswith_spec. unfold urlsplit.
  rewrite unsafe_removed_wiki.
  set (s1 := fold_left _ _ (strip _ scheme)).
  set (r1 := fold_left _ _ r).
  set (su := match str_find ch_colon _, _ with
             | Some (S i), String c0 _ => _ | _, _ => _ end).
  assert (su = (s1, "/wiki/" +:+ r1)) as ->.
  { subst su. by destruct (str_find ch_colon ("/wiki/" +:+ r1)) as [[|i]|]. }
  change (startswith "//" ("/wiki/" +:+ r1)) with false.
  cbn [mbind result_bind].
  pose proof (split_first_slash ch_hash ("/wiki/" +:+ r1) eq_refl eq_refl) as H4.
  destruct (if str_in ch_hash _ then _ else _) as [u4 fr]. cbn [fst] in H4.
  pose proof (split_first_slash ch_question u4 eq_refl H4) as H5.
  destruct (if str_in ch_question u4 then _ else _) as [u5 qu]. cbn [fst] in H5.
  cbn. by eexists _, _, _.
Qed.

Lemma urlparse_wiki_path (href scheme : string) :
  startswith "/wiki/" href = true ->
  exists p pa q f,
    urlparse href scheme =
      Return (ParseResult.mk
                (fold_left (fun u b => str_remove b u) _UNSAFE_URL_BYTES_TO_REMOVE
                   (strip _WHATWG_C0_CONTROL_OR_SPACE scheme))
                EmptyString p pa q f)
    /\ startswith "/" p = true.
Proof.
  intros H. unfold urlparse.
  destruct (urlsplit_wiki_path href scheme H) as (p & q & f & -> & Hp).
  cbn [mbind result_bind].
  pose proof (splitparams_slash p Hp) as Hs.
  destruct (_ && _).
  - destruct (_splitparams p) as [p' pa]. by eexists _, _, _, _.
  - by eexists _, _, _, _.
Qed.

Lemma urlparse_WIKI_BASE :
  urlparse WIKI_BASE EmptyString =
    Return (ParseResult.mk "https" "en.wikipedia.org" EmptyString EmptyString
              EmptyString EmptyString).
Proof. reflexivity. Qed.

(** Putting back together a URL of the site whose path is not empty gives
    a string that begins with the base and a slash. *)
Lemma urlunparse_on_site (p pa q f : string) :
  nonempty p = true ->
  exists r,
    urlunparse (ParseResult.mk "https" "en.wikipedia.org" p pa q f)
    = "https://en.wikipedia.org/" +:+ r.
Proof.
  intros Hp. unfold urlunparse, urlunsplit.
  cbn [nonempty orb].
  set (u := if nonempty pa then _ else p).
  assert (nonempty u = true) as Hu.
  { subst u. destruct (nonempty pa); [|done]. by destruct p. }
  rewrite Hu. cbn [andb].
  assert (exists r0, (if negb (startswith "/" u) then "/" +:+ u else u)
                     = "/" +:+ r0) as [r0 ->].
  { destruct (startswith "/" u) eqn:E; cbn [negb].
    - by apply startswith_spec in E.
    - by exists u. }
  destruct (nonempty q), (nonempty f); cbn; by eexists.
Qed.

(** Joining a [/wiki/] target to the base never raises, and gives a URL
    that begins with the base and a slash. *)
Lemma urljoin_wiki_path (href : string) :
  startswith "/wiki/" href = true ->
  exists r, urljoin WIKI_BASE href = Return ("https://en.wikipedia.org/" +:+ r).
Proof.
  intros H. unfold urljoin.
  change (nonempty WIKI_BASE) with true.
  assert (nonempty href = true) as ->.
  { apply startswith_spec in H as [r ->]. done. }
  cbn [negb]. rewrite urlparse_WIKI_BASE. cbn [mbind result_bind].
  destruct (urlparse_wiki_path href "https" H) as (p & pa & q & f & -> & Hp).
  cbn [mbind result_bind].
  change (fold_left _ _UNSAFE_URL_BYTES_TO_REMOVE
            (strip _WHATWG_C0_CONTROL_OR_SPACE "https")) with "https".
  change (negb (String.eqb "https" "https")
          || negb (str_in_list "https" uses_relative)) with false.
  change (str_in_list "https" uses_netloc) with true.
  cbn [nonempty andb]. cbv iota.
  assert (nonempty p = true) as Hn
    by (apply startswith_spec in Hp as [r ->]; done).
  rewrite Hn. cbn [negb andb]. cbv iota.
  set (j := str_join _ _).
  destruct (urlunparse_on_site (if nonempty j then j else "/") pa q f)
    as [r Hr].
  { by destruct (nonempty j) eqn:E. }
  exists r. by rewrite Hr.
Qed.

Lemma urljoin_wiki_path_returns (href : string) :
  startswith "/wiki/" href = true -> returns (urljoin WIKI_BASE href).
Proof. intros [r Hr]%urljoin_wiki_path. by eexists. Qed.

Lemma str_find_app_r (c : ascii) (p r : string) :
  str_in c p = false ->
  str_find c (p +:+ r) = Nat.add (String.length p) <$> str_find c r.
Proof.
  induction p as [|a p IH].
  - intros _. change (EmptyString +:+ r) with r. by destruct (str_find c r).
  - change (String a p +:+ r) with (String a (p +:+ r)).
    cbn [str_in str_find]. intros H. apply orb_false_elim in H as [-> Hp].
    rewrite (IH Hp). by destruct (str_find c r).
Qed.

Lemma splitnetloc_on_site (r : string) :
  _splitnetloc ("//en.wikipedia.org/" +:+ r) 2
  = ("en.wikipedia.org", "/" +:+ r).
Proof.
  unfold _splitnetloc, str_find_from. cbn [fold_left].
  change (String.length ("//en.wikipedia.org/" +:+ r) <? 2)%nat with false.
  change (str_drop 2 ("//en.wikipedia.org/" +:+ r))
    with ("en.wikipedia.org/" +:+ r).
  change (str_find ch_slash ("en.wikipedia.org/" +:+ r)) with (Some 16%nat).
  rewrite !str_find_app_r by reflexivity.
  by destruct (str_find ch_question r), (str_find ch_hash r).
Qed.

(** A URL that begins with the base and a slash is split into the scheme
    and the network location of the base. *)
Lemma urlparse_on_site (r : string) :
  exists p pa q f,
    urlparse ("https://en.wikipedia.org/" +:+ r) EmptyString
    = Return (ParseResult.mk "https" "en.wikipedia.org" p pa q f).
Proof.
  unfold urlparse, urlsplit.
  change (fold_left (fun u b => str_remove b u) _UNSAFE_URL_BYTES_TO_REMOVE
            (lstrip _WHATWG_C0_CONTROL_OR_SPACE
               ("https://en.wikipedia.org/" +:+ r)))
    with ("https://en.wikipedia.org/" +:+
          fold_left (fun u b => str_remove b u) _UNSAFE_URL_BYTES_TO_REMOVE r).
  set (r1 := fold_left _ _ r).
  set (su := match str_find ch_colon _ with
             | Some (S i) => _ | _ => _ end).
  assert (su = ("https", "//en.wikipedia.org/" +:+ r1)) as -> by reflexivity.
  change (startswith "//" ("//en.wikipedia.org/" +:+ r1)) with true.
  cbv iota. rewrite splitnetloc_on_site.
  change (str_in ch_lbracket "en.wikipedia.org") with false.
  change (str_in ch_rbracket "en.wikipedia.org") with false.
  cbn [andb orb negb mbind result_bind mret result_ret].
  destruct (if str_in ch_hash _ then _ else _) as [u4 fr].
  destruct (if str_in ch_question u4 then _ else _) as [u5 qu].
  change (_checknetloc "en.wikipedia.org") with (Return tt).
  cbn [mbind result_bind].
  destruct (if _ && _ then _ else _) as [p pa]. by eexists _, _, _, _.
Qed.

Lemma first_seen_elem_of (seen : gset string) (items : list string) (x : string) :
  x ∈ first_seen seen items <-> x ∈ items /\ x ∉ seen.
Proof.
  revert seen. induction items as [|y items IH]; intros seen; simpl.
  - set_solver.
  - case_bool_decide as Hy.
    + rewrite IH. clear IH. set_solver.
    + rewrite elem_of_cons, IH. clear IH.
      destruct (decide (x = y)) as [->|]; set_solver.
Qed.

Lemma first_seen_NoDup (seen : gset string) (items : list string) :
  NoDup (first_seen seen items).
Proof.
  revert seen. induction items as [|y items IH]; intros seen; simpl.
  - constructor.
  - case_bool_decide; [apply IH|].
    constructor; [|apply IH]. rewrite first_seen_elem_of. clear IH. set_solver.
Qed.

Lemma first_seen_sublist (seen : gset string) (items : list string) :
  first_seen seen items `sublist_of` items.
Proof.
  revert seen. induction items as [|y items IH]; intros seen; simpl; [done|].
  case_bool_decide; [apply sublist_cons | apply sublist_skip]; apply IH.
Qed.

Lemma first_seen_length (seen : gset string) (items : list string) :
  (length (first_seen seen items) <= length items)%nat.
Proof. apply sublist_length, first_seen_sublist. Qed.

Lemma is_wiki_path_startswith (href : string) :
  is_wiki_path href -> startswith "/wiki/" href = true.
Proof.
  unfold is_wiki_path, WIKI_PATH_RE_match.
  destruct (startswith "/wiki/" href); [done|]. simpl. by intros [? ?].
Qed.

Lemma is_wiki_path_no_colon (href : string) :
  is_wiki_path href -> str_in ch_colon href = false /\ str_in ch_hash href = false.
Proof.
  unfold is_wiki_path, WIKI_PATH_RE_match.
  destruct (startswith "/wiki/" href) eqn:E; [|simpl; by intros [? ?]].
  apply startswith_spec in E as [r ->].
  destruct (nonempty _); [|simpl; by intros [? ?]].
  destruct (str_forall _ _) eqn:F; [|simpl; by intros [? ?]].
  intros _. by apply str_forall_not_colon_hash in F.
Qed.

(** The loop of [extract_wiki_links] keeps the targets of the contract and
    returns what they resolve to; it cannot raise. *)
Lemma extract_loop_spec (hrefs links : list string) (seen : gset string) :
  (length links < 10)%nat ->
  exists new,
    extract_loop hrefs links seen = Return (links ++ new)
    /\ Forall2 joined
         (take (10 - length links) (first_seen seen (filter is_wiki_path hrefs)))
         new.
Proof.
  revert links seen. induction hrefs as [|href rest IH]; intros links seen Hlen.
  - exists []. simpl. rewrite app_nil_r, take_nil. split; [done | constructor].
  - cbn [extract_loop]. rewrite filter_cons.
    change (is_Some (WIKI_PATH_RE_match href)) with (is_wiki_path href).
    destruct (decide (is_wiki_path href)) as [Hm|Hm].
    + rewrite (bool_decide_eq_true_2 _ Hm). cbn [first_seen andb].
      destruct (decide (href ∈ seen)) as [Hs|Hs].
      * rewrite (bool_decide_eq_true_2 _ Hs).
        rewrite bool_decide_eq_false_2 by (intros ?; done).
        cbn [mbind result_bind].
        replace (length links =? 10)%nat with false
          by (symmetry; apply Nat.eqb_neq; lia).
        by apply IH.
      * rewrite (bool_decide_eq_false_2 _ Hs).
        rewrite (bool_decide_eq_true_2 (href ∉ seen)) by done.
        destruct (urljoin_wiki_path_returns href (is_wiki_path_startswith _ Hm))
          as [link Hlink].
        rewrite Hlink. cbn [mbind result_bind].
        destruct (10 - length links)%nat as [|k] eqn:Hk; [lia|].
        cbn [take].
        destruct (length (links ++ [link]) =? 10)%nat eqn:E.
        -- exists [link]. split; [done|].
           rewrite length_app in E. cbn [length] in E. apply Nat.eqb_eq in E.
           replace k with O by lia. rewrite take_0.
           by repeat constructor.
        -- rewrite length_app in E. cbn [length] in E. apply Nat.eqb_neq in E.
           destruct (IH (links ++ [link]) (seen ∪ {[href]})) as (new & Hnew & Hj).
           { rewrite length_app. cbn [length]. lia. }
           exists (link :: new). rewrite Hnew, <- app_assoc. split; [done|].
           constructor; [done|].
           rewrite length_app in Hj. cbn [length] in Hj.
           by replace k with (10 - (length links + 1))%nat by lia.
    + rewrite (bool_decide_eq_false_2 _ Hm). cbn [andb mbind result_bind].
      replace (length links =? 10)%nat with false
        by (symmetry; apply Nat.eqb_neq; lia).
      by apply IH.
Qed.

(** On a document that the parser accepts, [extract_wiki_links] returns;
    on one that it rejects, the exception of the parser goes through. *)
Lemma extract_wiki_links_spec (html : string) (hrefs : list string) :
  select_a_href html = Return hrefs ->
  exists links,
    extract_wiki_links html = Return links
    /\ Forall2 joined (spec_kept_hrefs hrefs) links.
Proof.
  intros Hp. unfold extract_wiki_links. rewrite Hp. cbn [mbind result_bind].
  destruct (extract_loop_spec hrefs [] ∅) as (new & H & Hj); [simpl; lia|].
  exists new. split; [done|]. exact Hj.
Qed.

Lemma extract_wiki_links_raises (html : string) (e : exn) :
  extract_wiki_links html = Raise e <-> select_a_href html = Raise e.
Proof.
  split.
  - destruct (select_a_href html) as [hrefs|e'] eqn:Hp.
    + destruct (extract_wiki_links_spec html hrefs Hp) as (links & -> & _).
      done.
    + unfold extract_wiki_links. rewrite Hp. cbn [mbind result_bind].
      by intros [= ->].
  - intros Hp. unfold extract_wiki_links. by rewrite Hp.
Qed.

Lemma spec_kept_hrefs_length (hrefs : list string) :
  (length (spec_kept_hrefs hrefs) <= 10)%nat.
Proof. unfold spec_kept_hrefs. rewrite length_take. lia. Qed.

Lemma spec_kept_hrefs_sublist (hrefs : list string) :
  spec_kept_hrefs hrefs `sublist_of` hrefs.
Proof.
  unfold spec_kept_hrefs.
  etrans; [apply sublist_take|]. etrans; [apply first_seen_sublist|].
  apply sublist_filter.
Qed.

Lemma spec_kept_hrefs_NoDup (hrefs : list string) : NoDup (spec_kept_hrefs hrefs).
Proof.
  unfold spec_kept_hrefs.
  eapply sublist_NoDup; [apply first_seen_NoDup | apply sublist_take].
Qed.

Lemma spec_kept_hrefs_wiki_path (hrefs : list string) (href : string) :
  href ∈ spec_kept_hrefs hrefs -> is_wiki_path href /\ href ∈ hrefs.
Proof.
  unfold spec_kept_hrefs. intros H.
  apply (sublist_subseteq _ _ (sublist_take _ _)) in H.
  apply first_seen_elem_of in H as [H _].
  by apply list_elem_of_filter in H.
Qed.

(** What [extract_wiki_links] returns: at most 10 links, each the
    resolution of a target of the document that matches the pattern. *)
Lemma extract_wiki_links_returns (html : string) (links : list string) :
  extract_wiki_links html = Return links ->
  exists hrefs,
    select_a_href html = Return hrefs
    /\ Forall2 joined (spec_kept_hrefs hrefs) links
    /\ (length links <= 10)%nat
    /\ forall link, link ∈ links ->
         exists href, href ∈ hrefs /\ is_wiki_path href /\ joined href link.
Proof.
  intros Hex.
  destruct (select_a_href html) as [hrefs|e] eqn:Hp;
    [|by rewrite (proj2 (extract_wiki_links_raises html e) Hp) in Hex].
  destruct (extract_wiki_links_spec html hrefs Hp) as (links' & H & Hj).
  rewrite Hex in H. injection H as <-.
  exists hrefs. split; [done|]. split; [done|]. split.
  - rewrite <- (Forall2_length _ _ _ Hj). apply spec_kept_hrefs_length.
  - intros link Hl. apply list_elem_of_lookup in Hl as [i Hi].
    destruct (Forall2_lookup_r _ _ _ _ _ Hj Hi) as (href & Hh & Hjoin).
    exists href. apply list_elem_of_lookup_2 in Hh.
    apply spec_kept_hrefs_wiki_path in Hh as [? ?]. done.
Qed.

(** ** The loop of [crawl] *)

Lemma at_next_level_fst (lvl : Z) (links : list string) :
  (at_next_level lvl links).*1 = links.
Proof.
  unfold at_next_level.
  induction links as [|x l IH]; [done | cbn [fmap list_fmap] in *; by rewrite IH].
Qed.

Lemma at_next_level_elem_of (lvl : Z) (links : list string) (e : string * Z) :
  e ∈ at_next_level lvl links <-> e.2 = lvl + 1 /\ e.1 ∈ links.
Proof.
  unfold at_next_level. rewrite list_elem_of_fmap. split.
  - intros (x & -> & ?). done.
  - intros [? ?]. exists e.1. split; [|done]. destruct e; simpl in *; congruence.
Qed.

(** The [for link in ...] loop appends the links that are new, each once,
    in the order of their first occurrence. *)
Lemma fold_visit_spec (lvl : Z) (links : list string) (st : crawl_state) :
  let new := first_seen (visited st) links in
  let st' := fold_left (visit lvl) links st in
  all_links st' = all_links st ++ new
  /\ queue st' = queue st ++ at_next_level lvl new
  /\ enqueued st' = enqueued st ++ at_next_level lvl new
  /\ stderr st' = stderr st
  /\ requested st' = requested st
  /\ (forall u, u ∈ visited st' <-> u ∈ visited st \/ u ∈ new).
Proof.
  revert st. induction links as [|link links IH]; intros st; cbn zeta.
  - simpl. rewrite !app_nil_r. repeat split; try done; set_solver.
  - cbn [fold_left first_seen].
    destruct (decide (link ∈ visited st)) as [Hin|Hin].
    + rewrite (bool_decide_eq_true_2 _ Hin).
      replace (visit lvl st link) with st; [apply IH|].
      unfold visit. by rewrite bool_decide_eq_false_2 by (intros ?; done).
    + rewrite (bool_decide_eq_false_2 _ Hin).
      set (st1 := {| visited := visited st ∪ {[link]};
                     queue := queue st ++ [(link, lvl + 1)];
                     all_links := all_links st ++ [link];
                     stderr := stderr st;
                     requested := requested st;
                     enqueued := enqueued st ++ [(link, lvl + 1)] |}).
      replace (visit lvl st link) with st1
        by (unfold visit; by rewrite bool_decide_eq_true_2).
      destruct (IH st1) as (H1 & H2 & H3 & H4 & H5 & H6).
      rewrite H1, H2, H3, H4, H5. unfold at_next_level. cbn [fmap list_fmap].
      subst st1. cbn [visited queue all_links stderr requested enqueued] in *.
      rewrite <- !app_assoc. repeat split; try done.
      * intros Hu. apply H6 in Hu. set_solver.
      * intros Hu. apply H6. set_solver.
Qed.

(** What one iteration of the loop does to the state it starts from (the
    entry [(url, lvl)] being already removed from the queue). *)
Lemma crawl_body_shape (depth : Z) (url : string) (lvl : Z)
    (st st' : crawl_state) :
  crawl_body depth url lvl st = Return st' ->
  exists new,
    all_links st' = all_links st ++ new
    /\ queue st' = queue st ++ at_next_level lvl new
    /\ enqueued st' = enqueued st ++ at_next_level lvl new
    /\ (forall u, u ∈ visited st' <-> u ∈ visited st \/ u ∈ new)
    /\ NoDup new
    /\ (forall u, u ∈ new -> u ∉ visited st)
    /\ (length new <= 10)%nat
    /\ ((lvl = depth /\ new = [] /\ requested st' = requested st
         /\ stderr st' = stderr st)
        \/ (lvl <> depth /\ requested st' = requested st ++ [(url, lvl)]
            /\ ((exists exc,
                   requests_get (length (requested st)) url = RequestException exc
                   /\ new = [] /\ stderr st' = stderr st ++ [warn_line url exc])
                \/ (exists text links,
                      requests_get (length (requested st)) url = RespText text
                      /\ extract_wiki_links text = Return links
                      /\ new = first_seen (visited st) links
                      /\ stderr st' = stderr st)))).
Proof.
  unfold crawl_body. destruct (Z.eqb_spec lvl depth) as [Heq|Hne].
  - intros [= <-]. exists []. unfold at_next_level. cbn [fmap list_fmap].
    rewrite !app_nil_r. repeat split; try done; try set_solver.
    + constructor.
    + simpl. lia.
  - destruct (requests_get (length (requested st)) url) as [text|exc|e] eqn:Hget;
      [| |done].
    + destruct (extract_wiki_links text) as [links|e] eqn:Hex; [|done].
      destruct (extract_wiki_links_returns text links Hex)
        as (hrefs & _ & _ & Hlen & _).
      cbn [mbind result_bind]. intros [= <-].
      pose proof (fold_visit_spec lvl links (requesting url lvl st)) as Hf.
      cbn zeta in Hf.
      cbn [requesting visited queue all_links stderr requested enqueued] in Hf.
      destruct Hf as (H1 & H2 & H3 & H4 & H5 & H6).
      exists (first_seen (visited st) links).
      repeat split; try done.
      * by apply H6.
      * by apply H6.
      * apply first_seen_NoDup.
      * intros u Hu. by apply first_seen_elem_of in Hu as [_ ?].
      * etrans; [apply first_seen_length | done].
      * right. split; [done|]. split; [done|]. right. by exists text, links.
    + intros [= <-]. exists [].
      unfold at_next_level. cbn [fmap list_fmap].
      cbn [requesting visited queue all_links stderr requested enqueued].
      rewrite !app_nil_r. repeat split; try done; try set_solver.
      * constructor.
      * simpl. lia.
Qed.


Lemma nondecreasing_app (l k : list Z) (x : Z) :
  nondecreasing l ->
  (forall a, a ∈ l -> a <= x) ->
  (forall b, b ∈ k -> b = x) ->
  nondecreasing (l ++ k).
Proof.
  intros Hl Hle Hk i j a b Hij Hi Hj.
  apply lookup_app_Some in Hi as [Hi|[Hi1 Hi2]];
  apply lookup_app_Some in Hj as [Hj|[Hj1 Hj2]].
  - by eapply Hl.
  - apply list_elem_of_lookup_2 in Hi, Hj2. rewrite (Hk _ Hj2). by apply Hle.
  - apply lookup_lt_Some in Hj. lia.
  - apply list_elem_of_lookup_2 in Hi2, Hj2. rewrite (Hk _ Hi2), (Hk _ Hj2). lia.
Qed.

Lemma crawl_inv_init (seed_url : string) (depth : Z) :
  crawl_inv seed_url depth (crawl_init seed_url).
Proof.
  split; cbn [crawl_init visited queue all_links stderr requested enqueued].
  - done.
  - intros u. set_solver.
  - apply NoDup_singleton.
  - by exists [].
  - intros [|i] [|j] a b Hij; try done; try lia.
    simpl. intros [= <-] [= <-]. lia.
  - intros url lvl rest [= <- <- <-] e He.
    apply list_elem_of_singleton in He as ->. simpl. lia.
  - intros e He. by apply elem_of_nil in He.
  - done.
  - intros [|i] u l; [|done]. intros [= <- <-]. by left.
  - intros Hd e He. apply list_elem_of_singleton in He as ->. simpl. lia.
Qed.

(** Every iteration preserves the invariant. *)
Lemma crawl_inv_iter (seed_url : string) (depth : Z) (st st' : crawl_state)
    (url : string) (lvl : Z) (rest : list (string * Z)) :
  crawl_inv seed_url depth st ->
  queue st = (url, lvl) :: rest ->
  crawl_body depth url lvl (popleft st rest) = Return st' ->
  crawl_inv seed_url depth st'.
Proof.
  intros [Il Iv In [done Is] Io Ib Ir Ie Ig Iz] Hq Hbody.
  destruct (crawl_body_shape depth url lvl (popleft st rest) st' Hbody)
    as (new & Hal & Hqu & Hen & Hvi & Hnd & Hfresh & Hlen & Hcase).
  cbn [popleft visited queue all_links stderr requested enqueued] in *.
  assert ((url, lvl) ∈ enqueued st) as Hhead.
  { rewrite Is, Hq. apply elem_of_app. right. apply list_elem_of_here. }
  assert (forall e, e ∈ enqueued st -> e.2 <= lvl + 1) as Hold by eauto.
  assert (new <> [] -> lvl <> depth) as Hnew.
  { destruct Hcase as [(_ & -> & _)|(? & _)]; done. }
  split.
  - rewrite Hal, Hen, fmap_app, at_next_level_fst. by rewrite Il.
  - intros u. rewrite Hvi, Hal, elem_of_app, Iv. done.
  - rewrite Hal. apply NoDup_app. split; [done|]. split; [|done].
    intros u Hu Hu'. apply (Hfresh u Hu'). by apply Iv.
  - exists (done ++ [(url, lvl)]).
    rewrite Hen, Hqu, Is, Hq, <- !app_assoc. done.
  - rewrite Hen, fmap_app. apply (nondecreasing_app _ _ (lvl + 1)); [done|..].
    + intros a (e & -> & He)%list_elem_of_fmap. by apply Hold.
    + intros b (e & -> & He)%list_elem_of_fmap.
      by apply at_next_level_elem_of in He as [? _].
  - intros url2 lvl2 rest2 Hq2 e He.
    assert (lvl <= lvl2) as Hle.
    { rewrite Hqu in Hq2. destruct rest as [|e2 rest'].
      - simpl in Hq2.
        assert ((url2, lvl2) ∈ at_next_level lvl new) as Hin
          by (rewrite Hq2; apply list_elem_of_here).
        apply at_next_level_elem_of in Hin as [Hin _]. simpl in Hin. lia.
      - simpl in Hq2. injection Hq2 as -> _.
        apply (Io (length done) (S (length done)) lvl lvl2); [lia|..].
        + rewrite list_lookup_fmap, Is, Hq, list_lookup_middle by done. done.
        + rewrite list_lookup_fmap, Is, Hq.
          rewrite (lookup_app_r done) by lia.
          replace (S (length done) - length done)%nat with 1%nat by lia. done. }
    rewrite Hen in He. apply elem_of_app in He as [He|He].
    + specialize (Hold e He). lia.
    + apply at_next_level_elem_of in He as [He _]. lia.
  - intros e He.
    assert (e ∈ requested st \/ (e = (url, lvl) /\ lvl <> depth)) as [Hr|[-> Hr]].
    { destruct Hcase as [(_ & _ & Hreq & _)|(Hne & Hreq & _)]; rewrite Hreq in He.
      - by left.
      - apply elem_of_app in He as [?|He]; [by left|].
        apply list_elem_of_singleton in He. by right. }
    + destruct (Ir e Hr) as [? ?]. split; [done|].
      rewrite Hen. apply elem_of_app. by left.
    + split; [done|]. rewrite Hen. apply elem_of_app. by left.
  - rewrite Hen. by apply lookup_app_l_Some.
  - intros i u l Hi. rewrite Hen in Hi.
    assert (forall u l, discovered_from depth st u l ->
                        discovered_from depth st' u l) as Hmono.
    { intros u0 l0 (n & parent & plvl & text & links & Hn & Hrest).
      exists n, parent, plvl, text, links. split; [|done].
      destruct Hcase as [(_ & _ & -> & _)|(_ & -> & _)]; [done|].
      by apply lookup_app_l_Some. }
    apply lookup_app_Some in Hi as [Hi|[Hi1 Hi2]].
    + destruct (Ig i u l Hi) as [?|[? ?]]; [by left | right; auto].
    + right. split.
      { apply lookup_lt_Some in Ie. lia. }
      apply list_elem_of_lookup_2, at_next_level_elem_of in Hi2 as [Hl Hu].
      simpl in Hl, Hu.
      destruct Hcase as [(_ & -> & _)|(Hne & Hreq & [(exc & _ & -> & _)|Hok])];
        try by apply elem_of_nil in Hu.
      destruct Hok as (text & links & Hget & Hex & -> & _).
      exists (length (requested st)), url, lvl, text, links.
      rewrite Hreq, list_lookup_middle by done.
      apply first_seen_elem_of in Hu as [Hu _]. done.
  - intros Hd e He. rewrite Hen in He. apply elem_of_app in He as [He|He].
    + by apply Iz.
    + apply at_next_level_elem_of in He as [He Hu].
      assert (new <> []) as Hn by (intros ->; by apply elem_of_nil in Hu).
      specialize (Iz Hd _ Hhead). specialize (Hnew Hn). simpl in Iz. lia.
Qed.

Lemma crawl_reach_inv (seed_url : string) (depth : Z) (st : crawl_state) :
  crawl_reach seed_url depth st -> crawl_inv seed_url depth st.
Proof.
  induction 1 as [|st url lvl rest st' _ IH Hq Hb].
  - apply crawl_inv_init.
  - by eapply crawl_inv_iter.
Qed.

(** The loop only goes through the states of [crawl_reach]. *)
Lemma crawl_loop_reach (seed_url : string) (depth : Z) (fuel : nat)
    (st st' : crawl_state) :
  crawl_reach seed_url depth st ->
  crawl_loop fuel depth st = Finished st' ->
  crawl_reach seed_url depth st' /\ queue st' = [].
Proof.
  revert st. induction fuel as [|fuel IH]; intros st Hr; cbn [crawl_loop];
    destruct (queue st) as [|[url lvl] rest] eqn:Hq; try done.
  - by intros [= <-].
  - by intros [= <-].
  - destruct (crawl_body depth url lvl (popleft st rest)) as [st1|e] eqn:Hb;
      [|done].
    apply IH. by eapply reach_iter.
Qed.

(** When an exception leaves the loop, it was raised in the iteration of a
    state of [crawl_reach], by the request or by the parser, and the state
    that is left is that state with its head entry taken off the frontier
    and requested. *)
Lemma crawl_loop_uncaught (seed_url : string) (depth : Z) (fuel : nat)
    (st st' : crawl_state) (e : exn) :
  crawl_reach seed_url depth st ->
  crawl_loop fuel depth st = Uncaught st' e ->
  exists st0 url lvl rest,
    crawl_reach seed_url depth st0
    /\ queue st0 = (url, lvl) :: rest
    /\ crawl_body depth url lvl (popleft st0 rest) = Raise e
    /\ st' = requesting url lvl (popleft st0 rest).
Proof.
  revert st. induction fuel as [|fuel IH]; intros st Hr; cbn [crawl_loop];
    destruct (queue st) as [|[url lvl] rest] eqn:Hq; try done.
  destruct (crawl_body depth url lvl (popleft st rest)) as [st1|e1] eqn:Hb.
  - apply IH. by eapply reach_iter.
  - intros [= <- <-]. by exists st, url, lvl, rest.
Qed.

(** ** Termination *)

Lemma frontier_bound_pos (k : nat) : (1 <= frontier_bound k)%nat.
Proof. destruct k; simpl; lia. Qed.

Lemma frontier_bound_mono (k k' : nat) :
  (k <= k')%nat -> (frontier_bound k <= frontier_bound k')%nat.
Proof.
  induction 1 as [|k' _ IH]; [done|]. simpl. lia.
Qed.

Lemma queue_measure_app (depth : Z) (q1 q2 : list (string * Z)) :
  queue_measure depth (q1 ++ q2)
  = (queue_measure depth q1 + queue_measure depth q2)%nat.
Proof. unfold queue_measure. by rewrite sum_list_with_app. Qed.

Lemma queue_measure_next (depth lvl : Z) (new : list string) :
  queue_measure depth (at_next_level lvl new)
  = (length new * frontier_bound (Z.to_nat (depth - (lvl + 1))))%nat.
Proof.
  unfold queue_measure, at_next_level.
  induction new as [|x new IH]; [done|].
  cbn [fmap list_fmap sum_list_with length] in *. rewrite IH. simpl. lia.
Qed.

Lemma queue_measure_length (depth : Z) (q : list (string * Z)) :
  (length q <= queue_measure depth q)%nat.
Proof.
  unfold queue_measure. induction q as [|e q IH]; [done|].
  cbn [length sum_list_with].
  pose proof (frontier_bound_pos (Z.to_nat (depth - e.2))). lia.
Qed.

(** With as much fuel as the measure of the frontier, the loop ends: it
    reaches the empty frontier and exits, or an exception leaves it. The
    measure also bounds the number of entries that are still to be put on
    the frontier. *)
Lemma crawl_loop_terminates (depth : Z) (fuel : nat) (st : crawl_state) :
  (forall e, e ∈ queue st -> e.2 <= depth) ->
  (queue_measure depth (queue st) <= fuel)%nat ->
  exists st',
    (crawl_loop fuel depth st = Finished st'
     \/ exists e, crawl_loop fuel depth st = Uncaught st' e)
    /\ (length (enqueued st') + length (queue st)
        <= length (enqueued st) + queue_measure depth (queue st))%nat.
Proof.
  revert st. induction fuel as [|fuel IH]; intros st Hlv Hm; cbn [crawl_loop];
    destruct (queue st) as [|[url lvl] rest] eqn:Hq;
    try (eexists; split; [left; reflexivity | simpl; lia]).
  - exfalso. unfold queue_measure in Hm. cbn in Hm.
    pose proof (frontier_bound_pos (Z.to_nat (depth - lvl))). lia.
  - destruct (crawl_body depth url lvl (popleft st rest)) as [st1|e1] eqn:Hb;
      cycle 1.
    { eexists. split; [right; by eexists|].
      cbn [requesting popleft enqueued].
      pose proof (queue_measure_length depth ((url, lvl) :: rest)). lia. }
    destruct (crawl_body_shape depth url lvl (popleft st rest) st1 Hb)
      as (new & _ & Hqu & Hen & _ & _ & _ & Hlen & Hcase).
    cbn [popleft queue enqueued] in Hqu, Hen.
    assert (new <> [] -> lvl <> depth) as Hnew.
    { destruct Hcase as [(_ & -> & _)|(? & _)]; done. }
    assert (lvl <= depth) as Hle.
    { apply (Hlv (url, lvl)). apply list_elem_of_here. }
    change (queue_measure depth ((url, lvl) :: rest))
      with (frontier_bound (Z.to_nat (depth - lvl))
            + queue_measure depth rest)%nat in *.
    assert (length new * frontier_bound (Z.to_nat (depth - (lvl + 1))) + 1
            <= frontier_bound (Z.to_nat (depth - lvl)))%nat as Hstep.
    { destruct new as [|x new'].
      - pose proof (frontier_bound_pos (Z.to_nat (depth - lvl))). simpl. lia.
      - assert (lvl <> depth) as Hne by (by apply Hnew).
        replace (Z.to_nat (depth - lvl))
          with (S (Z.to_nat (depth - (lvl + 1)))) by lia.
        cbn [frontier_bound]. set (b := frontier_bound _). nia. }
    destruct (IH st1) as (st' & Hrun & Hbound).
    + intros e. rewrite Hqu, elem_of_app. intros [He|He].
      * apply Hlv. by apply list_elem_of_further.
      * apply at_next_level_elem_of in He as [He Hu].
        assert (new <> []) as Hn by (intros ->; by apply elem_of_nil in Hu).
        specialize (Hnew Hn). lia.
    + rewrite Hqu, queue_measure_app, queue_measure_next. lia.
    + exists st'. split; [done|].
      rewrite Hqu, Hen, queue_measure_app, queue_measure_next in Hbound.
      rewrite !length_app in Hbound. unfold at_next_level in Hbound.
      rewrite length_fmap in Hbound. cbn [length]. lia.
Qed.

(** Between two runs that both exit, fuel makes no difference. *)
Lemma crawl_loop_fuel_mono (depth : Z) (fuel fuel' : nat) (st st' : crawl_state) :
  (fuel <= fuel')%nat ->
  crawl_loop fuel depth st = Finished st' ->
  crawl_loop fuel' depth st = Finished st'.
Proof.
  revert fuel' st. induction fuel as [|fuel IH]; intros fuel' st Hle;
    cbn [crawl_loop]; destruct (queue st) as [|[url lvl] rest] eqn:Hq; try done.
  - intros [= <-]. destruct fuel'; cbn [crawl_loop]; by rewrite Hq.
  - intros [= <-]. destruct fuel'; cbn [crawl_loop]; by rewrite Hq.
  - destruct fuel' as [|fuel']; [lia|]. cbn [crawl_loop]. rewrite Hq.
    destruct (crawl_body depth url lvl (popleft st rest)); [|done].
    apply IH. lia.
Qed.

Lemma crawl_run_reach (fuel : nat) (seed_url : string) (depth : Z)
    (st : crawl_state) :
  crawl_run fuel seed_url depth = Finished st ->
  crawl_reach seed_url depth st /\ queue st = [].
Proof. apply crawl_loop_reach. constructor. Qed.

Lemma crawl_finished (fuel : nat) (seed_url : string) (depth : Z)
    (R : list string) :
  crawl fuel seed_url depth = Finished R ->
  exists st, crawl_run fuel seed_url depth = Finished st /\ R = all_links st.
Proof.
  unfold crawl. destruct (crawl_run fuel seed_url depth) as [st| |]; try done.
  intros [= <-]. by exists st.
Qed.


(** How a run with enough iterations ends: the loop exits on the empty
    frontier, or an exception leaves it, raised in the iteration of a
    state of the run. *)
Lemma crawl_run_ends (seed_url : string) (depth : Z) (fuel : nat) :
  0 <= depth ->
  (frontier_bound (Z.to_nat depth) <= fuel)%nat ->
  exists st,
    (length (enqueued st) <= frontier_bound (Z.to_nat depth))%nat
    /\ ((crawl_run fuel seed_url depth = Finished st
         /\ crawl_reach seed_url depth st /\ queue st = [])
        \/ (exists e st0 url lvl rest,
              crawl_run fuel seed_url depth = Uncaught st e
              /\ crawl_reach seed_url depth st0
              /\ queue st0 = (url, lvl) :: rest
              /\ crawl_body depth url lvl (popleft st0 rest) = Raise e
              /\ st = requesting url lvl (popleft st0 rest))).
Proof.
  intros Hd Hfuel.
  destruct (crawl_loop_terminates depth fuel (crawl_init seed_url))
    as (st & Hrun & Hbound).
  - intros e He. apply list_elem_of_singleton in He as ->. simpl. lia.
  - cbn [crawl_init queue queue_measure sum_list_with].
    replace (depth - (seed_url, 0).2) with depth by (simpl; lia). lia.
  - exists st. split.
    + cbn [crawl_init queue enqueued queue_measure sum_list_with length]
        in Hbound.
      replace (depth - (seed_url, 0).2) with depth in Hbound by (simpl; lia).
      lia.
    + destruct Hrun as [Hrun|[e Hrun]].
      * left. split; [done|]. by apply (crawl_run_reach fuel).
      * right.
        destruct (crawl_loop_uncaught seed_url depth fuel _ st e
                    (reach_init _ _) Hrun)
          as (st0 & url & lvl & rest & ? & ? & ? & ?).
        by exists e, st0, url, lvl, rest.
Qed.

Lemma crawl_run_bound (fuel : nat) (seed_url : string) (depth : Z)
    (st : crawl_state) :
  0 <= depth ->
  crawl_run fuel seed_url depth = Finished st ->
  (length (all_links st) <= frontier_bound (Z.to_nat depth))%nat.
Proof.
  intros Hd Hrun.
  destruct (crawl_run_ends seed_url depth
              (Nat.max fuel (frontier_bound (Z.to_nat depth))) Hd ltac:(lia))
    as (st' & Hbound & Hend).
  unfold crawl_run in Hrun.
  apply (crawl_loop_fuel_mono _ _ (Nat.max fuel (frontier_bound (Z.to_nat depth))))
    in Hrun; [|lia].
  fold (crawl_run (Nat.max fuel (frontier_bound (Z.to_nat depth))) seed_url depth)
    in Hrun.
  destruct Hend as [(Hrun' & Hreach & _)|(e & st0 & url & lvl & rest & Hrun' & _)];
    rewrite Hrun in Hrun'; [|done].
  injection Hrun' as <-.
  apply crawl_reach_inv in Hreach as [Il _ _ _ _ _ _ _ _ _].
  by rewrite Il, length_fmap.
Qed.

Lemma lookup_fst_NoDup (l : list (string * Z)) (u : string) (a b : Z) :
  NoDup (l.*1) -> (u, a) ∈ l -> (u, b) ∈ l -> a = b.
Proof.
  intros Hnd [i Hi]%list_elem_of_lookup [j Hj]%list_elem_of_lookup.
  assert (i = j) as ->.
  { eapply (NoDup_lookup _ i j u Hnd); rewrite list_lookup_fmap.
    - by rewrite Hi.
    - by rewrite Hj. }
  congruence.
Qed.

(** ** The claims about [is_valid_wiki_url] *)

Lemma is_valid_wiki_url_parsed (url : string) (parsed : ParseResult.t) :
  urlparse url EmptyString = Return parsed ->
  is_valid_wiki_url url =
    Return (if negb (str_in_list (ParseResult.scheme parsed) ["http"; "https"])
            then PyFalse
            else if negb (endswith "wikipedia.org" (ParseResult.netloc parsed))
            then PyFalse
            else match WIKI_PATH_RE_match (ParseResult.path parsed) with
                 | Some m => PyMatch m
                 | None => PyNone
                 end).
Proof.
  intros H. unfold is_valid_wiki_url. rewrite H. cbn [mbind result_bind].
  repeat match goal with |- context [if ?b then _ else _] => destruct b end;
    try done.
  by destruct (WIKI_PATH_RE_match _).
Qed.

(** C3, as amended. On a URL that [urlparse] splits, [is_valid_wiki_url]
    returns [False] when the URL is the empty string, when its scheme is
    neither [http] nor [https], and when its network location does not end
    with [wikipedia.org]; it returns a falsy value when its path holds a
    colon. The path that is tested never holds [#]: the fragment is split
    off by [urlparse] beforehand, so that a fragment is never a cause of
    rejection. *)
Theorem is_valid_wiki_url_rejects (url : string) (parsed : ParseResult.t) :
  urlparse url EmptyString = Return parsed ->
  (url = EmptyString -> is_valid_wiki_url url = Return PyFalse)
  /\ (str_in_list (ParseResult.scheme parsed) ["http"; "https"] = false ->
      is_valid_wiki_url url = Return PyFalse)
  /\ (endswith "wikipedia.org" (ParseResult.netloc parsed) = false ->
      is_valid_wiki_url url = Return PyFalse)
  /\ (str_in ch_colon (ParseResult.path parsed) = true ->
      exists v, is_valid_wiki_url url = Return v /\ truthy v = false)
  /\ str_in ch_hash (ParseResult.path parsed) = false.
Proof.
  intros H. rewrite (is_valid_wiki_url_parsed url parsed H).
  repeat split.
  - intros ->. by injection H as <-.
  - by intros ->.
  - intros ->. by destruct (negb _).
  - intros Hc. eexists. split; [reflexivity|].
    destruct (negb _); [done|]. destruct (negb _); [done|].
    destruct (WIKI_PATH_RE_match _) as [m|] eqn:Hm; [|done].
    assert (is_wiki_path (ParseResult.path parsed)) as Hw by (by exists m).
    apply is_wiki_path_no_colon in Hw as [Hw _]. congruence.
  - by eapply urlparse_path_no_hash.
Qed.

(** X16. [is_valid_wiki_url] returns on every ASCII string that holds no
    square bracket: [urlparse] splits such a string without raising. *)
Theorem is_valid_wiki_url_returns_on_ascii (url : string) :
  str_in ch_lbracket url = false ->
  str_in ch_rbracket url = false ->
  str_forall isascii url = true ->
  exists parsed v,
    urlparse url EmptyString = Return parsed
    /\ is_valid_wiki_url url = Return v.
Proof.
  intros Hl Hb Ha.
  destruct (urlparse_returns url EmptyString Hl Hb Ha) as [parsed H].
  exists parsed. eexists. split; [done|].
  by rewrite (is_valid_wiki_url_parsed url parsed H).
Qed.

(** ** The claims about [extract_wiki_links] *)

(** C10. On a document that the parser accepts, [extract_wiki_links]
    returns the resolutions of targets that it kept, and every target it
    keeps begins with [/wiki/] and is a path on the site: it has neither a
    scheme nor a network location. A target that is an absolute URL (one
    with a scheme) does not match the pattern and is not kept, whatever it
    denotes: the absolute URL of an article of the site does not match. *)
Theorem extract_wiki_links_site_relative (html : string) (hrefs : list string) :
  select_a_href html = Return hrefs ->
  exists kept links,
    extract_wiki_links html = Return links
    /\ kept `sublist_of` hrefs
    /\ Forall2 joined kept links
    /\ (forall href, href ∈ kept ->
          startswith "/wiki/" href = true
          /\ exists parsed, urlparse href EmptyString = Return parsed
                            /\ ParseResult.scheme parsed = EmptyString
                            /\ ParseResult.netloc parsed = EmptyString)
    /\ (forall href parsed,
          urlparse href EmptyString = Return parsed ->
          ParseResult.scheme parsed <> EmptyString ->
          WIKI_PATH_RE_match href = None /\ href ∉ kept)
    /\ WIKI_PATH_RE_match "https://en.wikipedia.org/wiki/X" = None.
Proof.
  intros Hparse.
  destruct (extract_wiki_links_spec html hrefs Hparse) as (links & H & Hj).
  assert (forall href, is_wiki_path href ->
            startswith "/wiki/" href = true
            /\ exists parsed, urlparse href EmptyString = Return parsed
                              /\ ParseResult.scheme parsed = EmptyString
                              /\ ParseResult.netloc parsed = EmptyString) as Hw.
  { intros href Hm. pose proof (is_wiki_path_startswith href Hm) as Hs.
    split; [done|].
    destruct (urlparse_wiki_path href EmptyString Hs)
      as (p & pa & q & f & Hp & _).
    eexists. split; [exact Hp|]. done. }
  exists (spec_kept_hrefs hrefs), links.
  split; [done|]. split; [apply spec_kept_hrefs_sublist|]. split; [done|].
  split; [|split; [|reflexivity]].
  - intros href [Hm _]%spec_kept_hrefs_wiki_path. by apply Hw.
  - intros href parsed Hp Hsch.
    assert (~ is_wiki_path href) as Hn.
    { intros Hm. destruct (Hw href Hm) as (_ & parsed' & Hp' & Hs & _).
      congruence. }
    split.
    + destruct (WIKI_PATH_RE_match href) as [m|] eqn:E; [|done].
      exfalso. apply Hn. by exists m.
    + by intros [Hm _]%spec_kept_hrefs_wiki_path.
Qed.

(** ** The claims about [crawl] *)

(** C1. The list that [crawl] returns holds no URL twice: it has as many
    entries as the set of its entries has elements, so that the two counts
    that [main] reports are equal. *)
Theorem crawl_no_duplicates (fuel : nat) (seed_url : string) (depth : Z)
    (R : list string) :
  crawl fuel seed_url depth = Finished R ->
  NoDup R /\ length R = size (list_to_set R : gset string).
Proof.
  intros (st & Hrun & ->)%crawl_finished.
  apply crawl_run_reach in Hrun as [Hreach _].
  apply crawl_reach_inv in Hreach as [_ _ Hnd _ _ _ _ _ _ _].
  split; [done|]. symmetry. by apply size_list_to_set.
Qed.

(** What a kept target resolves to is a URL of the site: [urlparse] gives
    it the scheme and the network location of the base, so that it passes
    the first two tests of [is_valid_wiki_url], whose result is then that
    of the pattern on the path of the resolved URL. *)
Lemma joined_on_site (href link : string) :
  is_wiki_path href ->
  joined href link ->
  exists parsed,
    urlparse link EmptyString = Return parsed
    /\ ParseResult.scheme parsed = "https"
    /\ ParseResult.netloc parsed = "en.wikipedia.org"
    /\ is_valid_wiki_url link
       = Return (match WIKI_PATH_RE_match (ParseResult.path parsed) with
                 | Some m => PyMatch m
                 | None => PyNone
                 end).
Proof.
  intros Hm Hj. unfold joined in Hj.
  destruct (urljoin_wiki_path href (is_wiki_path_startswith _ Hm)) as [r Hr].
  rewrite Hr in Hj. injection Hj as <-.
  destruct (urlparse_on_site r) as (p & pa & q & f & Hp).
  eexists. split; [exact Hp|]. split; [done|]. split; [done|].
  by rewrite (is_valid_wiki_url_parsed _ _ Hp).
Qed.

(** X15. Every URL that [crawl] puts in the result list or on the frontier,
    at any point of the run, is the seed or the resolution against
    [WIKI_BASE] of a target that matches the article-path pattern. Such a
    URL has the scheme [https] and the network location
    [en.wikipedia.org], and so passes the first two tests of
    [is_valid_wiki_url]; what [is_valid_wiki_url] returns on it is what
    the pattern gives on the path of the resolved URL. *)
Theorem crawl_links_are_joined_wiki_paths (seed_url : string) (depth : Z)
    (st : crawl_state) (link : string) :
  crawl_reach seed_url depth st ->
  link ∈ all_links st \/ link ∈ (queue st).*1 \/ link ∈ (enqueued st).*1 ->
  link = seed_url
  \/ exists href parsed,
       is_wiki_path href
       /\ joined href link
       /\ urlparse link EmptyString = Return parsed
       /\ ParseResult.scheme parsed = "https"
       /\ ParseResult.netloc parsed = "en.wikipedia.org"
       /\ is_valid_wiki_url link
          = Return (match WIKI_PATH_RE_match (ParseResult.path parsed) with
                    | Some m => PyMatch m
                    | None => PyNone
                    end).
Proof.
  intros [Il _ _ [done Is] _ _ _ _ Ig _]%crawl_reach_inv Hin.
  assert (link ∈ (enqueued st).*1) as He.
  { destruct Hin as [H|[H|H]]; [by rewrite <- Il | | done].
    rewrite Is, fmap_app, elem_of_app. by right. }
  apply list_elem_of_fmap in He as ([u l] & -> & He).
  apply list_elem_of_lookup in He as [i Hi].
  destruct (Ig i u l Hi) as [(_ & -> & _)|[_ Hd]]; [by left | right].
  destruct Hd as (n & parent & plvl & text & links & _ & _ & Hex & Hu & _).
  destruct (extract_wiki_links_returns text links Hex) as (hrefs & _ & _ & _ & Hl).
  destruct (Hl u Hu) as (href & _ & Hm & Hj).
  destruct (joined_on_site href u Hm Hj) as (parsed & Hp & Hs & Hn & Hv).
  by exists href, parsed.
Qed.

(** C6. The result list is in breadth-first discovery order. It is the
    list of the URLs that were put on the frontier, in that order, the
    seed first at level 0. Levels never decrease along it. Every later
    entry was found in the page of an entry that was fetched at some level
    [L] other than [depth], and stands at level [L + 1]. An entry of a
    lower level therefore always comes before an entry of a higher one:
    the links found from level [L] all come before any link found from
    level [L + 1]. Conversely, when the entry at the head of the frontier
    has a level [L] other than [depth] and its page is fetched, the links
    of the page that are new are appended at once, at level [L + 1] and in
    the order of the page, so that every link of the page is in the result
    list when the iteration ends. *)
Theorem crawl_breadth_first_order (seed_url : string) (depth : Z)
    (st : crawl_state) :
  crawl_reach seed_url depth st ->
  all_links st = (enqueued st).*1
  /\ enqueued st !! O = Some (seed_url, 0)
  /\ nondecreasing ((enqueued st).*2)
  /\ (forall i u l, enqueued st !! i = Some (u, l) -> (0 < i)%nat ->
        discovered_from depth st u l)
  /\ (forall i j u l u' l',
        enqueued st !! i = Some (u, l) -> enqueued st !! j = Some (u', l') ->
        l < l' -> (i < j)%nat)
  /\ (forall url lvl rest text links,
        queue st = (url, lvl) :: rest ->
        lvl <> depth ->
        requests_get (length (requested st)) url = RespText text ->
        extract_wiki_links text = Return links ->
        exists st',
          crawl_body depth url lvl (popleft st rest) = Return st'
          /\ enqueued st'
             = enqueued st ++ at_next_level lvl (first_seen (visited st) links)
          /\ all_links st' = all_links st ++ first_seen (visited st) links
          /\ forall link, link ∈ links -> link ∈ all_links st').
Proof.
  intros [Il Iv _ _ Io _ _ Ie Ig _]%crawl_reach_inv.
  split; [done|]. split; [done|]. split; [done|]. split; [|split].
  - intros i u l Hi Hpos. destruct (Ig i u l Hi) as [(-> & _)|[_ Hd]]; [lia|done].
  - intros i j u l u' l' Hi Hj Hlt.
    destruct (decide (i < j)%nat) as [|Hge]; [done|]. exfalso.
    assert (l' <= l); [|lia].
    apply (Io j i l' l); [lia|..]; rewrite list_lookup_fmap.
    + by rewrite Hj.
    + by rewrite Hi.
  - intros url lvl rest text links Hq Hne Hget Hex.
    eexists. split.
    { unfold crawl_body. rewrite (proj2 (Z.eqb_neq lvl depth) Hne).
      cbn [popleft requested]. rewrite Hget, Hex. reflexivity. }
    cbn [visited queue all_links stderr requested enqueued popleft].
    match goal with |- context [fold_left (visit lvl) links ?s] =>
      pose proof (fold_visit_spec lvl links s) as Hf end.
    cbn zeta in Hf. cbn [visited queue all_links stderr requested enqueued] in Hf.
    destruct Hf as (H1 & _ & H3 & _).
    split; [exact H3|]. split; [exact H1|].
    intros link Hl. rewrite H1, elem_of_app.
    destruct (decide (link ∈ visited st)) as [Hv|Hv].
    + left. by apply Iv.
    + right. by apply first_seen_elem_of.
Qed.

(** C7. No frontier entry whose level is the requested depth is passed to
    [requests.get]: the level of a requested entry differs from [depth]. A
    URL that stands on the frontier at level [depth] is in the result list
    all the same, and it is never requested at any level. *)
Theorem crawl_never_fetches_at_depth (seed_url : string) (depth : Z)
    (st : crawl_state) :
  crawl_reach seed_url depth st ->
  (forall url lvl, (url, lvl) ∈ requested st ->
     lvl <> depth /\ (url, lvl) ∈ enqueued st)
  /\ (forall url, (url, depth) ∈ enqueued st ->
        url ∈ all_links st /\ forall lvl, (url, lvl) ∉ requested st).
Proof.
  intros [Il _ Hnd _ _ _ Ir _ _ _]%crawl_reach_inv. split.
  - intros url lvl H. by apply Ir in H.
  - intros url Hu. split.
    + rewrite Il. apply list_elem_of_fmap. by exists (url, depth).
    + intros lvl Hr. apply Ir in Hr as [Hne He]. simpl in Hne.
      rewrite Il in Hnd. by rewrite (lookup_fst_NoDup _ _ _ _ Hnd He Hu) in Hne.
Qed.



(** ** Further properties of [crawl] *)

(** The requests are the entries taken off the frontier whose level is not
    the depth limit, in the order in which they were taken off. *)
Lemma crawl_requested_done (seed_url : string) (depth : Z) (st : crawl_state) :
  crawl_reach seed_url depth st ->
  exists done,
    enqueued st = done ++ queue st
    /\ requested st = filter (fun e => e.2 <> depth) done.
Proof.
  induction 1 as [|st url lvl rest st' _ (done & Hen & Hreq) Hq Hb].
  - by exists [].
  - destruct (crawl_body_shape depth url lvl (popleft st rest) st' Hb)
      as (new & _ & Hqu & Hen2 & _ & _ & _ & _ & Hcase).
    cbn [popleft queue enqueued requested] in *.
    exists (done ++ [(url, lvl)]). split.
    + by rewrite Hen2, Hqu, Hen, Hq, <- !app_assoc.
    + rewrite filter_app, filter_cons, filter_nil.
      destruct Hcase as [(-> & _ & -> & _)|(Hne & -> & _)].
      * rewrite decide_False by (simpl; intros ?; done).
        by rewrite app_nil_r.
      * rewrite decide_True by done. by rewrite Hreq.
Qed.

Lemma dequeued_done (st : crawl_state) (done : list (string * Z)) :
  enqueued st = done ++ queue st -> dequeued st = done.
Proof.
  intros H. unfold dequeued. rewrite H, length_app.
  replace (length done + length (queue st) - length (queue st))%nat
    with (length done) by lia.
  by rewrite take_app_length.
Qed.

(** X7. No URL is requested twice. The requests are exactly the entries taken
    off the frontier at a level other than [depth], in that order; when
    the loop exits, every URL of the result whose level is not [depth]
    has been requested. *)
Theorem crawl_requests_each_url_once (seed_url : string) (depth : Z)
    (st : crawl_state) :
  crawl_reach seed_url depth st ->
  requested st = filter (fun e => e.2 <> depth) (dequeued st)
  /\ NoDup ((requested st).*1)
  /\ (queue st = [] ->
      forall url lvl, (url, lvl) ∈ enqueued st -> lvl <> depth ->
                      (url, lvl) ∈ requested st).
Proof.
  intros Hreach.
  destruct (crawl_requested_done _ _ _ Hreach) as (done & Hen & Hreq).
  pose proof (crawl_reach_inv _ _ _ Hreach) as [Il _ Hnd _ _ _ _ _ _ _].
  rewrite (dequeued_done st done Hen). split; [done|]. split.
  - rewrite Hreq. eapply sublist_NoDup.
    + rewrite Il, Hen, fmap_app in Hnd. by apply NoDup_app in Hnd as [Hnd _].
    + apply fmap_sublist, sublist_filter.
  - intros Hq url lvl Hin Hne. rewrite Hq, app_nil_r in Hen.
    rewrite Hreq, <- Hen. apply list_elem_of_filter. done.
Qed.

Lemma length_omap_le {A B} (f : A -> option B) (l : list A) :
  (length (omap f l) <= length l)%nat.
Proof.
  induction l as [|x l IH]; [done|]. cbn [omap list_omap length].
  destruct (f x); cbn [length]; lia.
Qed.

(** X8. One warning is printed for each request that failed, in the order of
    the requests, and nothing else is printed on [stderr]. *)
Theorem crawl_warnings_are_failed_requests (seed_url : string) (depth : Z)
    (st : crawl_state) :
  crawl_reach seed_url depth st ->
  stderr st = warnings_of (requested st)
  /\ (length (stderr st) <= length (requested st))%nat.
Proof.
  intros Hreach.
  assert (stderr st = warnings_of (requested st)) as Hw.
  { induction Hreach as [|st url lvl rest st' _ IH Hq Hb]; [done|].
    destruct (crawl_body_shape depth url lvl (popleft st rest) st' Hb)
      as (new & _ & _ & _ & _ & _ & _ & _ & Hcase).
    cbn [popleft stderr requested] in *.
    destruct Hcase as [(_ & _ & -> & ->)|(_ & -> & Hres)]; [done|].
    unfold warnings_of in *. rewrite imap_app, omap_app, <- IH.
    cbn [imap omap]. unfold compose, warning_of at 1. cbn [fst].
    rewrite Nat.add_0_r.
    destruct Hres as [(exc & -> & _ & ->)|(text & links & -> & _ & _ & ->)].
    - done.
    - cbn. by rewrite app_nil_r. }
  split; [done|]. rewrite Hw. unfold warnings_of.
  etrans; [apply length_omap_le|]. by rewrite length_imap.
Qed.

(** X3. The seed is the first entry of the result, whatever the outcome of the
    requests, and it occurs nowhere else in it. *)
Theorem crawl_seed_first (fuel : nat) (seed_url : string) (depth : Z)
    (R : list string) :
  crawl fuel seed_url depth = Finished R ->
  exists rest, R = seed_url :: rest /\ seed_url ∉ rest.
Proof.
  intros (st & Hrun & ->)%crawl_finished.
  apply crawl_run_reach in Hrun as [Hreach _].
  apply crawl_reach_inv in Hreach as [Il _ Hnd _ _ _ _ Ie _ _].
  destruct (enqueued st) as [|e es] eqn:E; [done|].
  injection Ie as ->. rewrite Il in *. cbn [fmap list_fmap fst] in *.
  exists (es.*1). split; [done|]. by apply NoDup_cons in Hnd as [? _].
Qed.

(** X4. With depth 0 the seed is taken off the frontier and skipped: the
    result is the seed alone, no request is made and nothing is printed on
    [stderr]. *)
Theorem crawl_depth_zero (fuel : nat) (seed_url : string) :
  (1 <= fuel)%nat ->
  exists st,
    crawl_run fuel seed_url 0 = Finished st
    /\ crawl fuel seed_url 0 = Finished [seed_url]
    /\ requested st = []
    /\ stderr st = [].
Proof.
  intros Hf. destruct fuel as [|fuel]; [lia|].
  unfold crawl, crawl_run. cbn [crawl_loop crawl_init queue].
  unfold crawl_body. cbn [Z.eqb]. destruct fuel; cbn [crawl_loop popleft queue];
    by eexists.
Qed.





Lemma request_weight_next (depth lvl : Z) (new : list string) :
  sum_list_with (request_weight depth) (at_next_level lvl new)
  = (length new * request_weight depth (EmptyString, (lvl + 1)%Z))%nat.
Proof.
  unfold at_next_level.
  induction new as [|x new IH]; [done|].
  cbn [fmap list_fmap sum_list_with length] in *. rewrite IH.
  unfold request_weight. cbn [snd]. lia.
Qed.

(** The requests made so far and those still to come for the entries of
    the frontier are bounded together. *)
Lemma crawl_requests_potential (seed_url : string) (depth : Z)
    (st : crawl_state) :
  1 <= depth ->
  crawl_reach seed_url depth st ->
  (length (requested st) + sum_list_with (request_weight depth) (queue st)
   <= frontier_bound (Z.to_nat (depth - 1)))%nat.
Proof.
  intros Hd. induction 1 as [|st url lvl rest st' Hreach IH Hq Hb].
  - cbn [crawl_init requested queue sum_list_with length].
    unfold request_weight. cbn [snd].
    rewrite (proj2 (Z.ltb_lt 0 depth)) by lia.
    replace (depth - 1 - 0) with (depth - 1) by lia. lia.
  - destruct (crawl_body_shape depth url lvl (popleft st rest) st' Hb)
      as (new & _ & Hqu & _ & _ & _ & _ & Hlen & Hcase).
    cbn [popleft queue requested] in *.
    pose proof (crawl_reach_inv _ _ _ Hreach) as [_ _ _ [done Is] _ _ _ _ _ Iz].
    assert (lvl <= depth) as Hle.
    { apply (Iz ltac:(lia) (url, lvl)). rewrite Is, Hq.
      apply elem_of_app. right. apply list_elem_of_here. }
    rewrite Hq in IH. cbn [sum_list_with] in IH.
    rewrite Hqu, sum_list_with_app, request_weight_next.
    unfold request_weight in IH at 1. unfold request_weight at 2.
    cbn [snd] in *.
    destruct Hcase as [(-> & -> & -> & _)|(Hne & -> & _)].
    + rewrite Z.ltb_irrefl in IH. simpl. lia.
    + rewrite (proj2 (Z.ltb_lt lvl depth)) in IH by lia.
      rewrite length_app. cbn [length].
      destruct (Z.ltb_spec (lvl + 1) depth) as [Hlt|Hge].
      * replace (Z.to_nat (depth - 1 - lvl))
          with (S (Z.to_nat (depth - 1 - (lvl + 1)))) in IH by lia.
        cbn [frontier_bound] in IH.
        set (b := frontier_bound _) in *. nia.
      * pose proof (frontier_bound_pos (Z.to_nat (depth - 1 - lvl))). lia.
Qed.

(** X9. With a depth [d] of 1 or more, at most (10^d - 1) / 9 requests are
    made, 111 of them when the depth is 3, and each is made for an entry
    whose level is from 0 to [d - 1]. *)
Theorem crawl_requests_bound (seed_url : string) (depth : Z)
    (st : crawl_state) :
  1 <= depth ->
  crawl_reach seed_url depth st ->
  (length (requested st) <= frontier_bound (Z.to_nat (depth - 1)))%nat
  /\ (depth <= 3 -> (length (requested st) <= 111)%nat)
  /\ (forall url lvl, (url, lvl) ∈ requested st -> 0 <= lvl < depth).
Proof.
  intros Hd Hreach.
  pose proof (crawl_requests_potential seed_url depth st Hd Hreach) as Hp.
  split; [lia|]. split.
  - intros H3.
    assert (frontier_bound (Z.to_nat (depth - 1)) <= frontier_bound 2)%nat
      by (apply frontier_bound_mono; lia).
    change (frontier_bound 2) with 111%nat in *. lia.
  - intros url lvl Hin.
    apply crawl_reach_inv in Hreach as [_ _ _ _ _ _ Ir _ _ Iz].
    destruct (Ir _ Hin) as [Hne Hen]. specialize (Iz ltac:(lia) _ Hen).
    simpl in *. lia.
Qed.

(** X10. With depth 1, 11 iterations are enough for the loop to end, and
    when [crawl] returns, the only request was the one for the seed: the
    result is the seed and at most 10 links of its page, all at level 1,
    and no page other than the seed's was fetched. *)
Theorem crawl_depth_one (seed_url : string) (fuel : nat) :
  (11 <= fuel)%nat ->
  crawl_run fuel seed_url 1 <> OutOfFuel
  /\ forall st,
       crawl_run fuel seed_url 1 = Finished st ->
       crawl fuel seed_url 1 = Finished (all_links st)
       /\ requested st = [(seed_url, 0)]
       /\ (length (all_links st) <= 11)%nat
       /\ exists links, enqueued st = (seed_url, 0) :: at_next_level 0 links.
Proof.
  intros Hfuel. split.
  { destruct (crawl_run_ends seed_url 1 fuel ltac:(lia) Hfuel)
      as (st & _ & [(-> & _)|(e & st0 & url & lvl & rest & -> & _)]); done. }
  intros st Hrun.
  pose proof (crawl_run_bound fuel seed_url 1 st ltac:(lia) Hrun) as Hbound.
  unfold crawl. rewrite Hrun. split; [done|].
  apply crawl_run_reach in Hrun as [Hreach Hq].
  destruct (crawl_requested_done _ _ _ Hreach) as (done & Hen & Hreq).
  rewrite Hq, app_nil_r in Hen. subst done.
  pose proof (crawl_reach_inv _ _ _ Hreach) as [Il _ _ _ _ _ Ir Ie Ig Iz].
  destruct (enqueued st) as [|e es] eqn:E; [done|]. injection Ie as ->.
  assert (Forall (fun e => e.2 = 1) es) as Hall.
  { apply Forall_lookup. intros i [u l] Hi.
    destruct (Ig (S i) u l Hi) as [(? & _)|[_ Hd]]; [lia|].
    destruct Hd as (n & parent & plvl & _ & _ & Hn & _ & _ & _ & -> & _).
    apply list_elem_of_lookup_2, Ir in Hn as [_ Hn].
    pose proof (Iz ltac:(lia) _ Hn) as Hp.
    assert ((u, plvl + 1) ∈ (seed_url, 0) :: es) as Hu
      by (apply list_elem_of_further; by eapply list_elem_of_lookup_2).
    pose proof (Iz ltac:(lia) _ Hu) as Hl. simpl in *. lia. }
  split; [|split].
  - rewrite Hreq, filter_cons, decide_True by (simpl; lia). f_equal.
    clear -Hall. induction Hall as [|x l Hx _ IH]; [done|].
    rewrite filter_cons, decide_False; [done|]. intros Hne. by apply Hne.
  - done.
  - exists (es.*1). f_equal. unfold at_next_level.
    clear -Hall. induction Hall as [|[u l] es Hx _ IH]; [done|].
    cbn [fmap list_fmap fst]. simpl in Hx. subst l. by rewrite <- IH.
Qed.

(** ** Further properties of [extract_wiki_links] and [is_valid_wiki_url] *)

(** X1. [extract_wiki_links] raises what the parser raises, and nothing
    else. On a document that the parser accepts it returns at most 10
    links: the resolutions, in order, of the targets of the document that
    match the pattern, each taken where it first occurs, up to the tenth of
    them. The targets that are kept are pairwise distinct, and a document
    without a matching target gives the empty list. *)
Theorem extract_wiki_links_contract (html : string) :
  match select_a_href html with
  | Raise e => extract_wiki_links html = Raise e
  | Return hrefs =>
      exists links,
        extract_wiki_links html = Return links
        /\ (length links <= 10)%nat
        /\ Forall2 joined (spec_kept_hrefs hrefs) links
        /\ NoDup (spec_kept_hrefs hrefs)
        /\ spec_kept_hrefs hrefs `sublist_of` filter is_wiki_path hrefs
        /\ (filter is_wiki_path hrefs = [] -> links = [])
  end.
Proof.
  destruct (select_a_href html) as [hrefs|e] eqn:Hp;
    [|by apply extract_wiki_links_raises].
  destruct (extract_wiki_links_spec html hrefs Hp) as (links & H & Hj).
  exists links. split; [done|]. split.
  { rewrite <- (Forall2_length _ _ _ Hj). apply spec_kept_hrefs_length. }
  split; [done|]. split; [apply spec_kept_hrefs_NoDup|]. split.
  - unfold spec_kept_hrefs. etrans; [apply sublist_take|].
    apply first_seen_sublist.
  - intros Hnil. unfold spec_kept_hrefs in Hj. rewrite Hnil in Hj.
    cbn in Hj. by apply Forall2_nil_inv_l in Hj.
Qed.

Lemma str_in_app (c : ascii) (p s : string) :
  str_in c (p +:+ s) = str_in c p || str_in c s.
Proof.
  induction p as [|a p IH]; [done|].
  change (String a p +:+ s) with (String a (p +:+ s)).
  cbn [str_in]. by rewrite IH, orb_assoc.
Qed.

Lemma str_remove_absent (c : ascii) (s : string) :
  str_in c s = false -> str_remove c s = s.
Proof.
  induction s as [|a s IH]; [done|]. cbn [str_in str_remove].
  intros H. apply orb_false_elim in H as [-> Hs]. by rewrite (IH Hs).
Qed.

Lemma str_split_absent (c : ascii) (s : string) :
  str_in c s = false -> str_split c s = [s].
Proof.
  induction s as [|a s IH]; [done|]. cbn [str_in str_split].
  intros H. apply orb_false_elim in H as [-> Hs]. by rewrite (IH Hs).
Qed.

Lemma title_char_absent (title : string) (c : ascii) :
  str_forall title_char title = true ->
  title_char c = false ->
  str_in c title = false.
Proof.
  intros Ht Hc. destruct (str_in c title) eqn:E; [|done].
  rewrite str_forall_spec in Ht. rewrite (Ht c E) in Hc. done.
Qed.

Lemma title_char_not_colon_hash (title : string) :
  str_forall title_char title = true ->
  str_forall not_colon_hash title = true.
Proof.
  rewrite !str_forall_spec. intros Ht c Hc.
  pose proof (title_char_absent title ch_colon
                ltac:(by apply str_forall_spec) eq_refl) as H1.
  pose proof (title_char_absent title ch_hash
                ltac:(by apply str_forall_spec) eq_refl) as H2.
  unfold not_colon_hash.
  destruct (Ascii.eqb_spec c ch_colon) as [->|_]; [congruence|].
  destruct (Ascii.eqb_spec c ch_hash) as [->|_]; [congruence|]. done.
Qed.

Lemma unsafe_removed_title (title : string) :
  str_forall title_char title = true ->
  fold_left (fun u b => str_remove b u) _UNSAFE_URL_BYTES_TO_REMOVE title
  = title.
Proof.
  intros Ht. unfold _UNSAFE_URL_BYTES_TO_REMOVE. cbn [fold_left].
  rewrite (str_remove_absent (ascii_of_nat 9) title)
    by (by apply title_char_absent).
  rewrite (str_remove_absent (ascii_of_nat 13) title)
    by (by apply title_char_absent).
  by rewrite (str_remove_absent (ascii_of_nat 10) title)
    by (by apply title_char_absent).
Qed.

Lemma str_in_wiki_title (c : ascii) (title : string) :
  str_forall title_char title = true ->
  title_char c = false ->
  str_in c "/wiki/" = false ->
  str_in c ("/wiki/" +:+ title) = false.
Proof.
  intros Ht Hc Hw. by rewrite str_in_app, Hw, (title_char_absent title c Ht Hc).
Qed.

(** How [urlsplit] splits the target of a plain title. *)
Lemma urlsplit_plain_title (title : string) :
  str_forall title_char title = true ->
  urlsplit ("/wiki/" +:+ title) "https"
  = Return ("https", EmptyString, "/wiki/" +:+ title, EmptyString, EmptyString).
Proof.
  intros Ht. unfold urlsplit.
  rewrite unsafe_removed_wiki, (unsafe_removed_title title Ht).
  change (fold_left _ _UNSAFE_URL_BYTES_TO_REMOVE
            (strip _WHATWG_C0_CONTROL_OR_SPACE "https")) with "https".
  set (su := match str_find ch_colon _, _ with
             | Some (S i), String c0 _ => _ | _, _ => _ end).
  assert (su = ("https", "/wiki/" +:+ title)) as ->.
  { subst su. by destruct (str_find ch_colon ("/wiki/" +:+ title)) as [[|i]|]. }
  change (startswith "//" ("/wiki/" +:+ title)) with false.
  cbn [mbind result_bind].
  rewrite (str_in_wiki_title ch_hash title Ht eq_refl eq_refl).
  cbv beta iota zeta.
  rewrite (str_in_wiki_title ch_question title Ht eq_refl eq_refl).
  reflexivity.
Qed.

Lemma urlparse_plain_title (title : string) :
  str_forall title_char title = true ->
  urlparse ("/wiki/" +:+ title) "https"
  = Return (ParseResult.mk "https" EmptyString ("/wiki/" +:+ title)
              EmptyString EmptyString EmptyString).
Proof.
  intros Ht. unfold urlparse. rewrite (urlsplit_plain_title title Ht).
  cbn [mbind result_bind].
  by rewrite (str_in_wiki_title ch_semi title Ht eq_refl eq_refl), andb_false_r.
Qed.

(** How [urlparse] splits the URL of a plain title on the site. *)
Lemma urlparse_plain_title_url (title : string) :
  str_forall title_char title = true ->
  urlparse ("https://en.wikipedia.org/wiki/" +:+ title) EmptyString
  = Return (ParseResult.mk "https" "en.wikipedia.org" ("/wiki/" +:+ title)
              EmptyString EmptyString EmptyString).
Proof.
  intros Ht. unfold urlparse, urlsplit.
  change (fold_left (fun u b => str_remove b u) _UNSAFE_URL_BYTES_TO_REMOVE
            (lstrip _WHATWG_C0_CONTROL_OR_SPACE
               ("https://en.wikipedia.org/wiki/" +:+ title)))
    with ("https://en.wikipedia.org/wiki/" +:+
          fold_left (fun u b => str_remove b u) _UNSAFE_URL_BYTES_TO_REMOVE
            title).
  rewrite (unsafe_removed_title title Ht).
  set (su := match str_find ch_colon _ with
             | Some (S i) => _ | _ => _ end).
  assert (su = ("https", "//en.wikipedia.org/" +:+ ("wiki/" +:+ title))) as ->
    by reflexivity.
  change (startswith "//" ("//en.wikipedia.org/" +:+ ("wiki/" +:+ title)))
    with true.
  cbv iota. rewrite splitnetloc_on_site.
  change (str_in ch_lbracket "en.wikipedia.org") with false.
  change (str_in ch_rbracket "en.wikipedia.org") with false.
  cbn [andb orb negb mbind result_bind mret result_ret].
  change ("/" +:+ ("wiki/" +:+ title)) with ("/wiki/" +:+ title).
  rewrite (str_in_wiki_title ch_hash title Ht eq_refl eq_refl).
  cbv beta iota zeta.
  rewrite (str_in_wiki_title ch_question title Ht eq_refl eq_refl).
  cbv beta iota zeta.
  change (_checknetloc "en.wikipedia.org") with (Return tt).
  cbn [mbind result_bind].
  by rewrite (str_in_wiki_title ch_semi title Ht eq_refl eq_refl), andb_false_r.
Qed.

Lemma resolve_plain_title (title : string) :
  title <> "." -> title <> ".." ->
  resolve_segment (resolve_segment (resolve_segment [] EmptyString) "wiki") title
  = [EmptyString; "wiki"; title].
Proof.
  intros Hdot Hdots.
  change (resolve_segment (resolve_segment [] EmptyString) "wiki")
    with [EmptyString; "wiki"].
  unfold resolve_segment.
  rewrite (proj2 (String.eqb_neq title "..")) by done.
  by rewrite (proj2 (String.eqb_neq title ".")) by done.
Qed.

(** X2. An ordinary article link is handled as one expects: for a plain title
    the target [/wiki/<title>] matches the pattern, it resolves to the base
    followed by the target, unchanged, and [is_valid_wiki_url] accepts the
    URL it resolves to. *)
Theorem plain_title_link_is_valid (title : string) :
  plain_title title ->
  is_wiki_path ("/wiki/" +:+ title)
  /\ urljoin WIKI_BASE ("/wiki/" +:+ title)
     = Return (WIKI_BASE +:+ "/wiki/" +:+ title)
  /\ is_valid_wiki_url (WIKI_BASE +:+ "/wiki/" +:+ title)
     = Return (PyMatch ("/wiki/" +:+ title)).
Proof.
  intros (Hne & Ht & Hdot & Hdots).
  assert (WIKI_PATH_RE_match ("/wiki/" +:+ title) = Some ("/wiki/" +:+ title))
    as Hmatch.
  { unfold WIKI_PATH_RE_match.
    change (startswith "/wiki/" ("/wiki/" +:+ title)) with true.
    change (str_drop 6 ("/wiki/" +:+ title)) with title.
    by rewrite Hne, (title_char_not_colon_hash title Ht). }
  split; [|split].
  - unfold is_wiki_path. by rewrite Hmatch.
  - unfold urljoin. change (nonempty WIKI_BASE) with true.
    change (nonempty ("/wiki/" +:+ title)) with true. cbn [negb].
    rewrite urlparse_WIKI_BASE. cbn [mbind result_bind].
    rewrite (urlparse_plain_title title Ht). cbn [mbind result_bind].
    change (negb (String.eqb "https" "https")
            || negb (str_in_list "https" uses_relative)) with false.
    change (str_in_list "https" uses_netloc) with true.
    change (nonempty ("/wiki/" +:+ title)) with true.
    change (startswith "/" ("/wiki/" +:+ title)) with true.
    cbn [nonempty andb negb]. cbv iota.
    change (str_split ch_slash ("/wiki/" +:+ title))
      with (EmptyString :: "wiki" :: str_split ch_slash title).
    rewrite (str_split_absent ch_slash title)
      by (by apply title_char_absent).
    cbn [fold_left app List.last str_in_list existsb].
    rewrite (proj2 (String.eqb_neq title "..")) by done.
    rewrite (proj2 (String.eqb_neq title ".")) by done.
    cbn [orb]. rewrite (resolve_plain_title title Hdot Hdots).
    reflexivity.
  - change (WIKI_BASE +:+ "/wiki/" +:+ title)
      with ("https://en.wikipedia.org/wiki/" +:+ title).
    rewrite (is_valid_wiki_url_parsed _ _ (urlparse_plain_title_url title Ht)).
    cbn [ParseResult.scheme ParseResult.netloc ParseResult.path].
    by rewrite Hmatch.
Qed.

(** ** The depth limit only cuts the crawl short *)

(** The result list only grows along a run of the loop. *)
Lemma crawl_loop_all_links_prefix (depth : Z) (fuel : nat)
    (st st' : crawl_state) :
  crawl_loop fuel depth st = Finished st' ->
  all_links st `prefix_of` all_links st'.
Proof.
  revert st. induction fuel as [|fuel IH]; intros st; cbn [crawl_loop];
    destruct (queue st) as [|[url lvl] rest] eqn:Hq; try done.
  - by intros [= <-].
  - by intros [= <-].
  - destruct (crawl_body depth url lvl (popleft st rest)) as [st1|e] eqn:Hb;
      [|done].
    destruct (crawl_body_shape depth url lvl (popleft st rest) st1 Hb)
      as (new & Hal & _).
    intros Hrun. apply IH in Hrun. cbn [popleft all_links] in Hal.
    etrans; [|exact Hrun]. rewrite Hal. by apply prefix_app_r.
Qed.

(** When every entry of the frontier stands at the depth limit, the loop
    empties the frontier and leaves the result list as it is. *)
Lemma crawl_loop_skips_at_depth (depth : Z) (fuel : nat)
    (st st' : crawl_state) :
  (forall e, e ∈ queue st -> e.2 = depth) ->
  crawl_loop fuel depth st = Finished st' ->
  all_links st' = all_links st.
Proof.
  revert st. induction fuel as [|fuel IH]; intros st Hall; cbn [crawl_loop];
    destruct (queue st) as [|[url lvl] rest] eqn:Hq; try done.
  - by intros [= <-].
  - by intros [= <-].
  - assert (lvl = depth) as -> by (apply (Hall (url, lvl)), list_elem_of_here).
    unfold crawl_body. rewrite Z.eqb_refl. intros Hrun.
    apply IH in Hrun; [done|]. cbn [popleft queue]. intros e He.
    apply Hall. by apply list_elem_of_further.
Qed.

(** Below the depth limit, an iteration does not depend on the limit. *)
Lemma crawl_body_below_depth (depth depth' : Z) (url : string) (lvl : Z)
    (st : crawl_state) :
  lvl <> depth -> lvl <> depth' ->
  crawl_body depth url lvl st = crawl_body depth' url lvl st.
Proof.
  intros H H'. unfold crawl_body.
  by rewrite (proj2 (Z.eqb_neq lvl depth) H), (proj2 (Z.eqb_neq lvl depth') H').
Qed.

Lemma crawl_deeper_from (seed_url : string) (depth : Z) (fuel fuel' : nat)
    (st st1 st2 : crawl_state) :
  0 <= depth ->
  crawl_reach seed_url depth st ->
  crawl_loop fuel depth st = Finished st1 ->
  crawl_loop fuel' (depth + 1) st = Finished st2 ->
  all_links st1 `prefix_of` all_links st2.
Proof.
  intros Hd. revert fuel' st.
  induction fuel as [|fuel IH]; intros fuel' st Hreach H1 H2.
  - cbn [crawl_loop] in H1.
    destruct (queue st) as [|[url lvl] rest] eqn:Hq; [|done].
    injection H1 as <-. by eapply crawl_loop_all_links_prefix.
  - pose proof (crawl_reach_inv _ _ _ Hreach)
      as [_ _ _ [done Is] Io _ _ _ _ Iz].
    destruct (queue st) as [|[url lvl] rest] eqn:Hq.
    { cbn [crawl_loop] in H1. rewrite Hq in H1. injection H1 as <-.
      by eapply crawl_loop_all_links_prefix. }
    destruct (decide (lvl = depth)) as [->|Hne].
    + assert (forall e, e ∈ queue st -> e.2 = depth) as Hall.
      { intros e He. rewrite Hq in He.
        assert (e ∈ enqueued st) as Hen
          by (rewrite Is; apply elem_of_app; by right).
        pose proof (Iz Hd e Hen) as [_ Hle].
        apply list_elem_of_lookup in He as [j Hj].
        assert (depth <= e.2); [|lia].
        apply (Io (length done) (length done + j)%nat); [lia|..];
          rewrite list_lookup_fmap, Is.
        - by rewrite list_lookup_middle.
        - rewrite lookup_app_r by lia.
          replace (length done + j - length done)%nat with j by lia.
          by rewrite Hj. }
      rewrite (crawl_loop_skips_at_depth depth (S fuel) st st1 Hall H1).
      by eapply crawl_loop_all_links_prefix.
    + assert (lvl <= depth) as Hle.
      { apply (Iz Hd (url, lvl)). rewrite Is.
        apply elem_of_app. right. apply list_elem_of_here. }
      destruct fuel' as [|fuel']; cbn [crawl_loop] in H1, H2;
        rewrite Hq in H1, H2; [done|].
      rewrite <- (crawl_body_below_depth depth (depth + 1)) in H2 by lia.
      destruct (crawl_body depth url lvl (popleft st rest)) as [st'|e] eqn:Hb;
        [|done].
      eapply (IH fuel' st'); [|done..]. by eapply reach_iter.
Qed.

(** X11. Raising the depth limit by one only appends to the result: against the
    same network, the result of the crawl of depth [d] is the beginning of
    the result of the crawl of depth [d + 1]. *)
Theorem crawl_deeper_extends (seed_url : string) (depth : Z)
    (fuel fuel' : nat) (R R' : list string) :
  0 <= depth ->
  crawl fuel seed_url depth = Finished R ->
  crawl fuel' seed_url (depth + 1) = Finished R' ->
  R `prefix_of` R'.
Proof.
  intros Hd (st & Hrun & ->)%crawl_finished (st' & Hrun' & ->)%crawl_finished.
  eapply crawl_deeper_from; [done| |exact Hrun|exact Hrun']. constructor.
Qed.

(** ** [write_csv] and [main] *)

Lemma enumerate_lookup (start : Z) (items : list string) (k : nat) :
  enumerate start items !! k
  = (fun x => (start + Z.of_nat k, x)) <$> items !! k.
Proof.
  revert start k. induction items as [|x items IH]; intros start [|k];
    cbn [enumerate lookup list_lookup fmap option_fmap option_map]; try done.
  - by rewrite Z.add_0_r.
  - rewrite IH. destruct (items !! k); cbn; [|done]. do 2 f_equal. lia.
Qed.

Lemma enumerate_snd (start : Z) (items : list string) :
  (enumerate start items).*2 = items.
Proof.
  revert start. induction items as [|x items IH]; intros start; [done|].
  cbn [enumerate fmap list_fmap snd]. by rewrite IH.
Qed.

(** X12. [write_csv] writes the header row and then one row for each link, in
    the order of the list: the row number [k], counted from 1, carries the
    index [k] and the link number [k] of the list. Reading the URL column
    of the data rows back gives the list. *)
Theorem write_csv_rows (fname : string) (links : list string) :
  exists rows,
    write_csv fname links
    = CsvRows fname ([CsvStr "index"; CsvStr "url"] :: rows)
    /\ length rows = length links
    /\ (forall k : nat,
          rows !! k
          = (fun link => [CsvInt (Z.of_nat k + 1); CsvStr link]) <$> links !! k)
    /\ omap csv_row_url rows = links.
Proof.
  eexists. split; [reflexivity|]. split; [|split].
  - rewrite length_fmap. rewrite <- (enumerate_snd 1 links) at 2.
    by rewrite length_fmap.
  - intros k. rewrite list_lookup_fmap, enumerate_lookup.
    destruct (links !! k); cbn; [|done]. do 3 f_equal. lia.
  - generalize 1. induction links as [|x links IH]; intros start; [done|].
    cbn [enumerate fmap list_fmap omap list_omap csv_row_url].
    by rewrite IH.
Qed.


(** X14. When [main] returns, what it reports is consistent with the crawl: the
    URL and the depth had passed the two checks, the first two calls of
    [print] announce the seed and give the two counts, which are equal,
    the warnings on [stderr] are those of the crawl, and the file, if any,
    holds the result of the crawl in discovery order. In the JSON file the
    fields [total_links_found] and [unique_links] are both the number of
    links. *)
Theorem main_report (fuel : nat) (args : Args.t) (printed err : list string)
    (files : list file_write) :
  main fuel args = Finished (Exit0 printed err files) ->
  exists st R,
    crawl_run fuel (Args.url args) (Args.depth args) = Finished st
    /\ R = all_links st
    /\ err = stderr st
    /\ 1 <= Args.depth args <= 3
    /\ NoDup R
    /\ (length R <= 1111)%nat
    /\ ["Starting crawl from: " +:+ Args.url args;
         summary (Args.depth args) (length R) (length R)] `prefix_of` printed
    /\ files
       = match Args.out args with
         | None => []
         | Some OutCsv => [write_csv "results.csv" R]
         | Some OutJson =>
             [JsonDump "results.json"
                [("seed", JsonStr (Args.url args));
                 ("depth", JsonInt (Args.depth args));
                 ("total_links_found", JsonInt (Z.of_nat (length R)));
                 ("unique_links", JsonInt (Z.of_nat (length R)));
                 ("links", JsonStrList R)]]
         end.
Proof.
  unfold main.
  destruct (is_valid_wiki_url (Args.url args)) as [v|e]; [|done].
  destruct (negb (truthy v)); [done|].
  destruct (Z.leb_spec 1 (Args.depth args)) as [H1|H1]; [|done].
  destruct (Z.leb_spec (Args.depth args) 3) as [H3|H3]; [|done].
  cbn [andb negb]. cbv zeta.
  destruct (print_stdout 0 _) as [[]|e0]; [|done].
  destruct (crawl_run fuel (Args.url args) (Args.depth args)) as [st| |] eqn:Hrun;
    [|done..].
  pose proof (crawl_run_bound fuel (Args.url args) (Args.depth args) st
                ltac:(lia) Hrun) as Hlen.
  assert (frontier_bound (Z.to_nat (Args.depth args)) <= 1111)%nat as Hb.
  { change 1111%nat with (frontier_bound 3). apply frontier_bound_mono. lia. }
  pose proof Hrun as [Hreach _]%crawl_run_reach.
  apply crawl_reach_inv in Hreach as [_ _ Hnd _ _ _ _ _ _ _].
  rewrite (size_list_to_set (all_links st)) by done.
  destruct (print_stdout 1 _) as [[]|e1]; [|done].
  destruct (Args.out args) as [fmt|];
    [destruct (write_file _) as [[]|e2]; [|done];
     destruct (print_stdout 2 _) as [[]|e3]; [|done]|];
    intros Hmain; injection Hmain as <- <- <-;
    exists st, (all_links st);
    (split; [done|]); (split; [done|]); (split; [done|]); (split; [lia|]);
    (split; [done|]); (split; [lia|]).
  - split; [by eexists|]. by destruct fmt.
  - split; [by exists []|done].
Qed.

End Crawler.

(** * The claims on the small site *)

(** C1, on the small site: the crawl of depth 2 from the Cat page. *)
Lemma crawl_no_duplicates_witness :
  let R := [cat_url; dog_url; lion_url; query_url; tiger_url] in
  crawl nfkc_of_ascii ip_address_rejecting anchors site 1111 cat_url 2
    = Finished R
  /\ NoDup R /\ length R = size (list_to_set R : gset string).
Proof.
  cbv zeta.
  assert (crawl nfkc_of_ascii ip_address_rejecting anchors site 1111 cat_url 2
          = Finished [cat_url; dog_url; lion_url; query_url; tiger_url]) as H
    by (vm_compute; reflexivity).
  split; [exact H|].
  exact (crawl_no_duplicates _ _ _ _ _ _ _ _ H).
Defined.

(** C2. The crawl breaks the claim on the small site: the seed is valid,
    and the crawl of depth 1 puts in its result a URL that
    [is_valid_wiki_url] rejects. The target [/wiki/?x] of the Cat page
    matches the pattern, which [extract_wiki_links] tests on the target as
    written; the link that is stored is its resolution, whose path is
    [/wiki/] and does not match. The same happens with the target
    [/wiki/..], which resolves to the root of the site. *)
Lemma crawl_enqueues_invalid_url :
  is_valid_wiki_url nfkc_of_ascii ip_address_rejecting cat_url
    = Return (PyMatch "/wiki/Cat")
  /\ crawl nfkc_of_ascii ip_address_rejecting anchors site 1111 cat_url 1
     = Finished [cat_url; dog_url; lion_url; query_url]
  /\ WIKI_PATH_RE_match "/wiki/?x" = Some "/wiki/?x"
  /\ urljoin nfkc_of_ascii ip_address_rejecting WIKI_BASE "/wiki/?x"
     = Return query_url
  /\ is_valid_wiki_url nfkc_of_ascii ip_address_rejecting query_url
     = Return PyNone
  /\ truthy PyNone = false
  /\ extract_wiki_links nfkc_of_ascii ip_address_rejecting anchors
       "<a href='/wiki/..'>up</a>"
     = Return ["https://en.wikipedia.org/"]
  /\ is_valid_wiki_url nfkc_of_ascii ip_address_rejecting
       "https://en.wikipedia.org/"
     = Return PyNone.
Proof. repeat split; vm_compute; reflexivity. Qed.

(** X15, on the small site. *)
Lemma crawl_links_are_joined_wiki_paths_witness :
  exists st,
    crawl_run nfkc_of_ascii ip_address_rejecting anchors site 1111 cat_url 2
      = Finished st
    /\ all_links st = [cat_url; dog_url; lion_url; query_url; tiger_url]
    /\ (query_url = cat_url
        \/ exists href parsed,
             is_wiki_path href
             /\ joined nfkc_of_ascii ip_address_rejecting href query_url
             /\ urlparse nfkc_of_ascii ip_address_rejecting query_url
                  EmptyString = Return parsed
             /\ ParseResult.scheme parsed = "https"
             /\ ParseResult.netloc parsed = "en.wikipedia.org"
             /\ is_valid_wiki_url nfkc_of_ascii ip_address_rejecting query_url
                = Return (match WIKI_PATH_RE_match (ParseResult.path parsed) with
                          | Some m => PyMatch m
                          | None => PyNone
                          end)).
Proof.
  eexists. split; [vm_compute; reflexivity|]. split; [reflexivity|].
  eapply (crawl_links_are_joined_wiki_paths nfkc_of_ascii ip_address_rejecting
            anchors site cat_url 2).
  - eapply (crawl_run_reach _ _ _ _ 1111). vm_compute. reflexivity.
  - left. cbn [all_links]. do 3 apply list_elem_of_further. apply list_elem_of_here.
Defined.

(** C3, as stated, fails: a host that merely ends with the letters of the
    site's domain is accepted, and so is a URL that carries a fragment. In
    the first URL the network location is the host itself. *)
Lemma is_valid_wiki_url_accepts_other_host_and_fragment :
  (urlparse nfkc_of_ascii ip_address_rejecting
     "https://xwikipedia.org/wiki/Cat" EmptyString
   = Return (ParseResult.mk "https" "xwikipedia.org" "/wiki/Cat" EmptyString
               EmptyString EmptyString)
   /\ "xwikipedia.org" <> "wikipedia.org"
   /\ endswith ".wikipedia.org" "xwikipedia.org" = false
   /\ is_valid_wiki_url nfkc_of_ascii ip_address_rejecting
        "https://xwikipedia.org/wiki/Cat"
      = Return (PyMatch "/wiki/Cat"))
  /\ (str_in ch_hash "https://en.wikipedia.org/wiki/Cat#History" = true
      /\ is_valid_wiki_url nfkc_of_ascii ip_address_rejecting
           "https://en.wikipedia.org/wiki/Cat#History"
         = Return (PyMatch "/wiki/Cat"))
  /\ truthy (PyMatch "/wiki/Cat") = true.
Proof. repeat split; try (vm_compute; reflexivity). discriminate. Qed.

(** C3, as amended, on the URL of a file page. *)
Lemma is_valid_wiki_url_rejects_witness :
  let url := "https://en.wikipedia.org/wiki/File:Cat.jpg" in
  let parsed := ParseResult.mk "https" "en.wikipedia.org" "/wiki/File:Cat.jpg"
                  EmptyString EmptyString EmptyString in
  urlparse nfkc_of_ascii ip_address_rejecting url EmptyString = Return parsed
  /\ str_in ch_colon (ParseResult.path parsed) = true
  /\ exists v, is_valid_wiki_url nfkc_of_ascii ip_address_rejecting url = Return v
               /\ truthy v = false.
Proof.
  cbv zeta. split; [reflexivity|]. split; [reflexivity|].
  refine (proj1 (proj2 (proj2 (proj2
    (is_valid_wiki_url_rejects nfkc_of_ascii ip_address_rejecting
       "https://en.wikipedia.org/wiki/File:Cat.jpg" _ eq_refl)))) eq_refl).
Defined.

(** C4. The code breaks the claim: on an authority with an unmatched
    bracket [urlparse] raises [ValueError], and [is_valid_wiki_url], which
    is to return a Boolean, lets it through. [main] then ends on that
    exception where it was to call [parser.error], as it does for the
    other strings that are no article URL. *)
Lemma is_valid_wiki_url_raises :
  is_valid_wiki_url nfkc_of_ascii ip_address_rejecting "http://["
  = Raise (ValueError "Invalid IPv6 URL")
  /\ main nfkc_of_ascii ip_address_rejecting anchors site stdout_utf8 disk 1111
       (Args.mk "http://[" 2 None)
     = Finished (Exit1 [] [] [] (ValueError "Invalid IPv6 URL"))
  /\ is_valid_wiki_url nfkc_of_ascii ip_address_rejecting "http://" = Return PyFalse
  /\ main nfkc_of_ascii ip_address_rejecting anchors site stdout_utf8 disk 1111
       (Args.mk "http://" 2 None)
     = Finished (Exit2 "URL must be a valid wikipedia.org/wiki/... link").
Proof. repeat split; vm_compute; reflexivity. Qed.

(** X16, on a string that is no URL. *)
Lemma is_valid_wiki_url_returns_on_ascii_witness :
  exists parsed v,
    urlparse nfkc_of_ascii ip_address_rejecting "not a url" EmptyString
      = Return parsed
    /\ is_valid_wiki_url nfkc_of_ascii ip_address_rejecting "not a url"
       = Return v.
Proof.
  exact (is_valid_wiki_url_returns_on_ascii nfkc_of_ascii ip_address_rejecting
           "not a url" eq_refl eq_refl eq_refl).
Defined.

(** C10, on the Cat page of the small site: of its seven targets, the three
    that are kept are paths that begin with [/wiki/]; the absolute URL of
    the Tiger page is not kept. *)
Lemma extract_wiki_links_site_relative_witness :
  let hrefs := ["/wiki/Dog"; "#top"; "/wiki/Lion";
                "https://en.wikipedia.org/wiki/Tiger"; "/wiki/File:Cat.jpg";
                "/wiki/?x"; "/wiki/Dog"] in
  anchors cat_page = Return hrefs
  /\ extract_wiki_links nfkc_of_ascii ip_address_rejecting anchors cat_page
     = Return [dog_url; lion_url; query_url]
  /\ exists kept links,
       extract_wiki_links nfkc_of_ascii ip_address_rejecting anchors cat_page
         = Return links
       /\ kept `sublist_of` hrefs
       /\ Forall2 (joined nfkc_of_ascii ip_address_rejecting) kept links
       /\ (forall href, href ∈ kept -> startswith "/wiki/" href = true)
       /\ "https://en.wikipedia.org/wiki/Tiger" ∉ kept.
Proof.
  cbv zeta.
  assert (anchors cat_page
          = Return ["/wiki/Dog"; "#top"; "/wiki/Lion";
                    "https://en.wikipedia.org/wiki/Tiger"; "/wiki/File:Cat.jpg";
                    "/wiki/?x"; "/wiki/Dog"]) as Hp by (vm_compute; reflexivity).
  split; [exact Hp|]. split; [vm_compute; reflexivity|].
  destruct (extract_wiki_links_site_relative nfkc_of_ascii ip_address_rejecting
              anchors cat_page _ Hp) as (kept & links & H1 & H2 & H3 & H4 & H5 & _).
  exists kept, links. split; [exact H1|]. split; [exact H2|]. split; [exact H3|].
  split.
  - intros href Hin. exact (proj1 (H4 href Hin)).
  - refine (proj2 (H5 "https://en.wikipedia.org/wiki/Tiger" _ eq_refl _)).
    discriminate.
Defined.

(** C5 fails on the Lion page of the small site: the targets
    [/wiki/Tiger] and [/wiki/./Tiger] are two different strings, both pass
    the test on [seen], and they resolve to the same link, which is
    returned twice. *)
Theorem extract_wiki_links_returns_duplicates :
  anchors lion_page = Return ["/wiki/Cat"; "/wiki/Tiger"; "/wiki/./Tiger"]
  /\ extract_wiki_links nfkc_of_ascii ip_address_rejecting anchors lion_page
     = Return [cat_url; tiger_url; tiger_url]
  /\ ~ NoDup [cat_url; tiger_url; tiger_url].
Proof.
  split; [reflexivity|]. split; [vm_compute; reflexivity|].
  intros H. apply NoDup_cons in H as [_ H]. apply NoDup_cons in H as [H _].
  apply H, list_elem_of_here.
Qed.

(** C6, on the small site. *)
Lemma crawl_breadth_first_order_witness :
  exists st,
    crawl_run nfkc_of_ascii ip_address_rejecting anchors site 1111 cat_url 2
      = Finished st
    /\ enqueued st = [(cat_url, 0); (dog_url, 1); (lion_url, 1);
                      (query_url, 1); (tiger_url, 2)]
    /\ all_links st = (enqueued st).*1
    /\ nondecreasing ((enqueued st).*2)
    /\ discovered_from nfkc_of_ascii ip_address_rejecting anchors site 2 st
         tiger_url 2.
Proof.
  eexists. split; [vm_compute; reflexivity|]. split; [reflexivity|].
  match goal with |- all_links ?s = _ /\ _ =>
    destruct (crawl_breadth_first_order nfkc_of_ascii ip_address_rejecting
                anchors site cat_url 2 s) as (H1 & _ & H3 & H4 & _)
  end.
  - eapply (crawl_run_reach _ _ _ _ 1111). vm_compute. reflexivity.
  - split; [exact H1|]. split; [exact H3|].
    apply (H4 4%nat); [reflexivity | lia].
Defined.

(** C7, on the small site: the Tiger page stands at level 2 and is not
    requested by the crawl of depth 2. *)
Lemma crawl_never_fetches_at_depth_witness :
  exists st,
    crawl_run nfkc_of_ascii ip_address_rejecting anchors site 1111 cat_url 2
      = Finished st
    /\ requested st = [(cat_url, 0); (dog_url, 1); (lion_url, 1); (query_url, 1)]
    /\ (tiger_url, 2) ∈ enqueued st
    /\ tiger_url ∈ all_links st
    /\ forall lvl, (tiger_url, lvl) ∉ requested st.
Proof.
  eexists. split; [vm_compute; reflexivity|]. split; [reflexivity|].
  match goal with |- _ ∈ enqueued ?s /\ _ =>
    destruct (crawl_never_fetches_at_depth nfkc_of_ascii ip_address_rejecting
                anchors site cat_url 2 s) as (_ & H2);
      [| assert ((tiger_url, 2) ∈ enqueued s) as Hin]
  end.
  - eapply (crawl_run_reach _ _ _ _ 1111). vm_compute. reflexivity.
  - cbn [enqueued]. do 4 apply list_elem_of_further. apply list_elem_of_here.
  - split; [exact Hin|]. exact (H2 tiger_url Hin).
Defined.



(** * The further properties on the small site *)

(** X2, on the small site. *)
Lemma plain_title_link_is_valid_witness :
  plain_title "Cat"
  /\ urljoin nfkc_of_ascii ip_address_rejecting WIKI_BASE "/wiki/Cat"
     = Return cat_url
  /\ is_valid_wiki_url nfkc_of_ascii ip_address_rejecting cat_url
     = Return (PyMatch "/wiki/Cat").
Proof.
  assert (plain_title "Cat") as H by (by repeat split).
  split; [exact H|].
  exact (proj2 (plain_title_link_is_valid nfkc_of_ascii ip_address_rejecting
                  "Cat" H)).
Defined.

(** X3, on the small site. *)
Lemma crawl_seed_first_witness :
  crawl nfkc_of_ascii ip_address_rejecting anchors site 1111 cat_url 2
  = Finished [cat_url; dog_url; lion_url; query_url; tiger_url]
  /\ exists rest,
       [cat_url; dog_url; lion_url; query_url; tiger_url] = cat_url :: rest
       /\ cat_url ∉ rest.
Proof.
  assert (crawl nfkc_of_ascii ip_address_rejecting anchors site 1111 cat_url 2
          = Finished [cat_url; dog_url; lion_url; query_url; tiger_url]) as H
    by (vm_compute; reflexivity).
  split; [exact H|].
  exact (crawl_seed_first _ _ _ _ _ _ _ _ H).
Defined.

(** X4, on the small site. *)
Lemma crawl_depth_zero_witness :
  (1 <= 1)%nat
  /\ exists st,
       crawl_run nfkc_of_ascii ip_address_rejecting anchors site 1 cat_url 0
         = Finished st
       /\ crawl nfkc_of_ascii ip_address_rejecting anchors site 1 cat_url 0
          = Finished [cat_url]
       /\ requested st = []
       /\ stderr st = [].
Proof.
  split; [lia|].
  exact (crawl_depth_zero nfkc_of_ascii ip_address_rejecting anchors site 1
           cat_url ltac:(lia)).
Defined.




(** X7, on the small site. *)
Lemma crawl_requests_each_url_once_witness :
  exists st,
    crawl_run nfkc_of_ascii ip_address_rejecting anchors site 1111 cat_url 2
      = Finished st
    /\ requested st = [(cat_url, 0); (dog_url, 1); (lion_url, 1); (query_url, 1)]
    /\ requested st = filter (fun e => e.2 <> 2) (dequeued st)
    /\ NoDup ((requested st).*1).
Proof.
  eexists. split; [vm_compute; reflexivity|]. split; [reflexivity|].
  match goal with |- requested ?s = _ /\ _ =>
    destruct (crawl_requests_each_url_once nfkc_of_ascii ip_address_rejecting
                anchors site cat_url 2 s) as (H1 & H2 & _)
  end.
  - eapply (crawl_run_reach _ _ _ _ 1111). vm_compute. reflexivity.
  - split; [exact H1 | exact H2].
Defined.

(** X8, on the small site. *)
Lemma crawl_warnings_are_failed_requests_witness :
  exists st,
    crawl_run nfkc_of_ascii ip_address_rejecting anchors site 1111 cat_url 2
      = Finished st
    /\ stderr st
       = [warn_line dog_url "Read timed out.";
          warn_line query_url "404 Client Error: Not Found"]
    /\ stderr st = warnings_of site (requested st)
    /\ (length (stderr st) <= length (requested st))%nat.
Proof.
  eexists. split; [vm_compute; reflexivity|]. split; [reflexivity|].
  eapply (crawl_warnings_are_failed_requests nfkc_of_ascii ip_address_rejecting
            anchors site cat_url 2).
  eapply (crawl_run_reach _ _ _ _ 1111). vm_compute. reflexivity.
Defined.

(** X9, on the small site. *)
Lemma crawl_requests_bound_witness :
  1 <= 2
  /\ exists st,
       crawl_run nfkc_of_ascii ip_address_rejecting anchors site 1111 cat_url 2
         = Finished st
       /\ (length (requested st) <= frontier_bound (Z.to_nat (2 - 1)))%nat
       /\ (2 <= 3 -> (length (requested st) <= 111)%nat)
       /\ (forall url lvl, (url, lvl) ∈ requested st -> 0 <= lvl < 2).
Proof.
  split; [lia|]. eexists. split; [vm_compute; reflexivity|].
  eapply (crawl_requests_bound nfkc_of_ascii ip_address_rejecting anchors site
            cat_url 2); [lia|].
  eapply (crawl_run_reach _ _ _ _ 1111). vm_compute. reflexivity.
Defined.

(** X10, on the small site. *)
Lemma crawl_depth_one_witness :
  (11 <= 11)%nat
  /\ exists st,
       crawl_run nfkc_of_ascii ip_address_rejecting anchors site 11 cat_url 1
         = Finished st
       /\ crawl nfkc_of_ascii ip_address_rejecting anchors site 11 cat_url 1
          = Finished (all_links st)
       /\ requested st = [(cat_url, 0)]
       /\ (length (all_links st) <= 11)%nat
       /\ exists links, enqueued st = (cat_url, 0) :: at_next_level 0 links.
Proof.
  split; [lia|].
  destruct (crawl_depth_one nfkc_of_ascii ip_address_rejecting anchors site
              cat_url 11 ltac:(lia)) as [_ H].
  eexists. split; [vm_compute; reflexivity|]. apply H. vm_compute. reflexivity.
Defined.

(** X11, on the small site. *)
Lemma crawl_deeper_extends_witness :
  0 <= 1
  /\ crawl nfkc_of_ascii ip_address_rejecting anchors site 1111 cat_url 1
     = Finished [cat_url; dog_url; lion_url; query_url]
  /\ crawl nfkc_of_ascii ip_address_rejecting anchors site 1111 cat_url (1 + 1)
     = Finished [cat_url; dog_url; lion_url; query_url; tiger_url]
  /\ [cat_url; dog_url; lion_url; query_url]
     `prefix_of` [cat_url; dog_url; lion_url; query_url; tiger_url].
Proof.
  assert (crawl nfkc_of_ascii ip_address_rejecting anchors site 1111 cat_url 1
          = Finished [cat_url; dog_url; lion_url; query_url]) as H1
    by (vm_compute; reflexivity).
  assert (crawl nfkc_of_ascii ip_address_rejecting anchors site 1111 cat_url
            (1 + 1)
          = Finished [cat_url; dog_url; lion_url; query_url; tiger_url]) as H2
    by (vm_compute; reflexivity).
  split; [lia|]. split; [exact H1|]. split; [exact H2|].
  exact (crawl_deeper_extends nfkc_of_ascii ip_address_rejecting anchors site
           cat_url 1 1111 1111 _ _ ltac:(lia) H1 H2).
Defined.


(** X14, on the small site. *)
Lemma main_report_witness :
  exists printed err,
    main nfkc_of_ascii ip_address_rejecting anchors site stdout_utf8 disk 1111
      (Args.mk cat_url 2 (Some OutJson))
    = Finished
        (Exit0 printed err
           [JsonDump "results.json"
              [("seed", JsonStr cat_url);
               ("depth", JsonInt 2);
               ("total_links_found", JsonInt 5);
               ("unique_links", JsonInt 5);
               ("links",
                JsonStrList [cat_url; dog_url; lion_url; query_url; tiger_url])]])
    /\ exists st R,
         crawl_run nfkc_of_ascii ip_address_rejecting anchors site 1111
           cat_url 2 = Finished st
         /\ R = all_links st
         /\ NoDup R
         /\ ["Starting crawl from: " +:+ cat_url;
             summary 2 (length R) (length R)] `prefix_of` printed.
Proof.
  eexists _, _. split; [vm_compute; reflexivity|].
  match goal with |- exists st R, _ /\ _ /\ _ /\ _ `prefix_of` ?p =>
    destruct (main_report nfkc_of_ascii ip_address_rejecting anchors site
                stdout_utf8 disk 1111
                (Args.mk cat_url 2 (Some OutJson)) p
                [warn_line dog_url "Read timed out.";
                 warn_line query_url "404 Client Error: Not Found"]
                [JsonDump "results.json"
                   [("seed", JsonStr cat_url);
                    ("depth", JsonInt 2);
                    ("total_links_found", JsonInt 5);
                    ("unique_links", JsonInt 5);
                    ("links",
                     JsonStrList
                       [cat_url; dog_url; lion_url; query_url; tiger_url])]])
      as (st & R & Hrun & HR & _ & _ & Hnd & _ & Hp & _)
  end.
  - vm_compute. reflexivity.
  - exists st, R. split; [exact Hrun|]. split; [exact HR|].
    split; [exact Hnd|]. exact Hp.
Defined.
